(** * The AI batch processor: rate limiter, retry loop, batch scheduler,
      usage tracker

    A shallow embedding of the Go package [processor]
    (token tracker and AI processor) and the properties
    of its orchestration core. *)

From stdpp Require Import gmap strings list.
From Stdlib Require Import ZArith Lia DecimalString.

Local Open Scope Z_scope.

(** ** Go's [int] and [time.Duration]

    Both are 64-bit two's-complement on the platforms the pipeline is built
    for.  Values are carried as [Z]; every arithmetic operation of the source
    is followed by [wrap64]. *)
Module goint.

Definition wrap64 (z : Z) : Z := (z + 2^63) mod 2^64 - 2^63.

Definition in_int (z : Z) : Prop := - 2^63 <= z < 2^63.

Definition add (a b : Z) : Z := wrap64 (a + b).
Definition mul (a b : Z) : Z := wrap64 (a * b).

(** [uint(a)]: reinterpretation of an [int] as an unsigned 64-bit value. *)
Definition to_uint (a : Z) : Z := a mod 2^64.

(** [1 << uint(a)] at type [int64]: a shift count of 64 or more gives 0,
    a count of 63 gives the most negative value. *)
Definition shl1 (a : Z) : Z :=
  let u := to_uint a in
  if 64 <=? u then 0 else wrap64 (Z.shiftl 1 u).

End goint.

(** ** token_tracker.go *)
Module token_tracker.
Import goint.

(** A [float64] amount of dollars.  Floating point is not interpreted: an
    estimated cost is the expression the source evaluates. *)
Inductive cost : Type :=
| CostZero
| CostOfTokens (promptTokens completionTokens : Z)
| CostPlus (a b : cost).

(** [TokenUsage]; the [Timestamp] field ([time.Now()]) is not carried. *)
Record TokenUsage : Type := mkTokenUsage {
  PromptTokens : Z;
  CompletionTokens : Z;
  TotalTokens : Z;
  EstimatedCost : cost
}.

(** The Go zero value [TokenUsage{}]. *)
Definition TokenUsage_zero : TokenUsage := mkTokenUsage 0 0 0 CostZero.

Record TokenTracker : Type := mkTokenTracker {
  usageByWeek : gmap string (list TokenUsage);
  totalUsage : TokenUsage;
  model : string
}.

Definition NewTokenTracker (model : string) : TokenTracker :=
  mkTokenTracker ∅ TokenUsage_zero model.

(** [usageByWeek[weekLabel]]: a missing key reads as the nil slice. *)
Definition week_slice (tt : TokenTracker) (weekLabel : string) : list TokenUsage :=
  default [] (usageByWeek tt !! weekLabel).

Definition RecordUsage (weekLabel : string) (promptTokens completionTokens : Z)
    (tt : TokenTracker) : TokenTracker :=
  let totalTokens := add promptTokens completionTokens in
  let totalCost := CostOfTokens promptTokens completionTokens in
  let usage := mkTokenUsage promptTokens completionTokens totalTokens totalCost in
  let t := totalUsage tt in
  mkTokenTracker
    (<[weekLabel := week_slice tt weekLabel ++ [usage]]> (usageByWeek tt))
    (mkTokenUsage (add (PromptTokens t) promptTokens)
                  (add (CompletionTokens t) completionTokens)
                  (add (TotalTokens t) totalTokens)
                  (CostPlus (EstimatedCost t) totalCost))
    (model tt).

(** One iteration of the summing loop of [GetWeekSummary]. *)
Definition accumulate (summary usage : TokenUsage) : TokenUsage :=
  mkTokenUsage (add (PromptTokens summary) (PromptTokens usage))
               (add (CompletionTokens summary) (CompletionTokens usage))
               (add (TotalTokens summary) (TotalTokens usage))
               (CostPlus (EstimatedCost summary) (EstimatedCost usage)).

Definition GetWeekSummary (weekLabel : string) (tt : TokenTracker) : TokenUsage :=
  let weekUsages := week_slice tt weekLabel in
  if (length weekUsages =? 0)%nat then TokenUsage_zero
  else fold_left accumulate weekUsages TokenUsage_zero.

Definition GetTotalSummary (tt : TokenTracker) : TokenUsage := totalUsage tt.

(** The loop of [repeatString], [k] iterations from the end:
    [result += s]. *)
Fixpoint repeat_loop (s : string) (k : nat) (result : string) : string :=
  match k with
  | O => result
  | S k' => repeat_loop s k' (result ++ s)
  end.

(** [repeatString]: [for i := 0; i < n; i++] runs [n] times, and not at all
    for [n <= 0]. *)
Definition repeatString (s : string) (n : Z) : string :=
  repeat_loop s (Z.to_nat n) "".

(** A call [RecordUsage(label, p, c)] as data, and a finite sequence of
    such calls applied in order. *)
Record call : Type := mkCall { c_label : string; c_prompt : Z; c_completion : Z }.

Definition record_all (calls : list call) (tt : TokenTracker) : TokenTracker :=
  fold_left (fun t c => RecordUsage (c_label c) (c_prompt c) (c_completion c) t) calls tt.

(** The calls made under one label, in order. *)
Definition under (weekLabel : string) (calls : list call) : list call :=
  filter (fun c => c_label c = weekLabel) calls.

Definition sum_prompt (calls : list call) : Z :=
  foldr (fun c acc => c_prompt c + acc) 0 calls.
Definition sum_completion (calls : list call) : Z :=
  foldr (fun c acc => c_completion c + acc) 0 calls.
Definition sum_total (calls : list call) : Z :=
  foldr (fun c acc => (c_prompt c + c_completion c) + acc) 0 calls.

(** The record [RecordUsage] appends for one call. *)
Definition usage_of (c : call) : TokenUsage :=
  mkTokenUsage (c_prompt c) (c_completion c)
               (add (c_prompt c) (c_completion c))
               (CostOfTokens (c_prompt c) (c_completion c)).

End token_tracker.

(** ** processor.go *)
Module processor.
Import goint.

Definition second : Z := 1000000000.
Definition minute : Z := 60 * second.

(** [Config]; the [Temperature] field ([float64]) is not carried. *)
Record Config : Type := mkConfig {
  APIKey : string;
  Model : string;
  MaxTokens : Z;
  Timeout : Z;
  SystemMessage : string;
  BatchSize : Z;
  MaxConcurrent : Z;
  RateLimitPerMin : Z;
  MaxRetries : Z;
  InitialRetryDelay : Z;
  MaxRetryDelay : Z;
  ExponentialBackoff : bool;
  TrackTokenUsage : bool;
  TrackTiming : bool;
  ShowProgress : bool
}.

(** *** The rate limiter

    [tokens] is a buffered channel of [struct{}]: its state is the number of
    buffered elements together with its capacity. *)
Record RateLimiter : Type := mkRateLimiter {
  tokens : nat;
  capacity : nat;
  refillRate : Z
}.

(** [rl.tokens <- struct{}{}]: a send on a full channel does not complete. *)
Definition send (rl : RateLimiter) : option RateLimiter :=
  if (tokens rl <? capacity rl)%nat
  then Some (mkRateLimiter (S (tokens rl)) (capacity rl) (refillRate rl))
  else None.

(** The loop [for i := 0; i < requestsPerMinute; i++ { rl.tokens <- struct{}{} }]. *)
Fixpoint fill (n : nat) (rl : RateLimiter) : option RateLimiter :=
  match n with
  | O => Some rl
  | S n' => match send rl with
            | Some rl' => fill n' rl'
            | None => None
            end
  end.

(** [NewRateLimiter]: [None] when the constructor (or the refill goroutine
    it starts) panics: [make] with a negative size, a zero divisor, or a
    ticker period that is not positive. *)
Definition NewRateLimiter (requestsPerMinute : Z) : option RateLimiter :=
  if requestsPerMinute <? 0 then None
  else if requestsPerMinute =? 0 then None
  else
    let rl := mkRateLimiter 0 (Z.to_nat requestsPerMinute)
                            (Z.quot minute requestsPerMinute) in
    match fill (Z.to_nat requestsPerMinute) rl with
    | Some rl' => if refillRate rl' <=? 0 then None else Some rl'
    | None => None
    end.

(** One tick of [refill]: [select { case rl.tokens <- struct{}{}: default: }]. *)
Definition refill (rl : RateLimiter) : RateLimiter :=
  match send rl with
  | Some rl' => rl'
  | None => rl
  end.

(** [Wait]: [<-rl.tokens].  [None] while the channel is empty (the receive
    does not complete); otherwise one element is taken. *)
Definition Wait (rl : RateLimiter) : option RateLimiter :=
  match tokens rl with
  | O => None
  | S t => Some (mkRateLimiter t (capacity rl) (refillRate rl))
  end.

(** The limiter as a transition system: the refill goroutine ticks, callers
    complete a [Wait]. *)
Inductive limiter_event : Type := Tick | Acquire.

Definition limiter_step (ev : limiter_event) (rl : RateLimiter) : option RateLimiter :=
  match ev with
  | Tick => Some (refill rl)
  | Acquire => Wait rl
  end.

Fixpoint limiter_run (evs : list limiter_event) (rl : RateLimiter) : option RateLimiter :=
  match evs with
  | [] => Some rl
  | ev :: evs' => match limiter_step ev rl with
                  | Some rl' => limiter_run evs' rl'
                  | None => None
                  end
  end.

(** *** Wire types *)
Record Message : Type := mkMessage { Role : string; Content : string }.

Record Choice : Type := mkChoice {
  choice_Index : Z;
  choice_Message : Message;
  FinishReason : string
}.

Record Usage : Type := mkUsage {
  PromptTokens : Z;
  CompletionTokens : Z;
  TotalTokens : Z
}.

Definition Usage_zero : Usage := mkUsage 0 0 0.

Record APIError : Type := mkAPIError {
  err_Message : string;
  err_Type : string;
  err_Code : string
}.

Record OpenAIResponse : Type := mkOpenAIResponse {
  resp_ID : string;
  resp_Object : string;
  resp_Created : Z;
  resp_Model : string;
  Choices : list Choice;
  resp_Usage : Usage;
  resp_Error : option APIError
}.

(** *** Errors

    One constructor per place where the source makes an [error]. *)
Inductive ctx_error : Type := Canceled | DeadlineExceeded.

Inductive error : Type :=
| ErrContext (e : ctx_error)
| ErrEmptyPrompt
| ErrMarshal (cause : string)
| ErrCreateRequest (cause : string)
| ErrRequest (cause : string)
| ErrRead (cause : string)
| ErrParse (cause : string)
| ErrAPI (message type : string)
| ErrStatus (code : Z) (body : string)
| ErrNoChoices
| ErrFailedAfter (attempts : Z) (e : error).

(** *** The network, seen from [callOpenAI]

    What the standard library hands back during one call: [json.Marshal],
    [http.NewRequestWithContext], [httpClient.Do], [io.ReadAll] and
    [json.Unmarshal], each of which either fails or yields its value. *)
Inductive body : Type :=
| Unreadable (cause : string)
| Undecodable (raw : string) (cause : string)
| Decoded (raw : string) (apiResp : OpenAIResponse).

Inductive exchange : Type :=
| MarshalFails (cause : string)
| NewRequestFails (cause : string)
| DoFails (cause : string)
| Response (StatusCode : Z) (b : body).

Definition StatusOK : Z := 200.

(** The part of [callOpenAI] after the request has been prepared. *)
Definition classify (x : exchange) : string * Usage * option error :=
  match x with
  | MarshalFails c => (""%string, Usage_zero, Some (ErrMarshal c))
  | NewRequestFails c => (""%string, Usage_zero, Some (ErrCreateRequest c))
  | DoFails c => (""%string, Usage_zero, Some (ErrRequest c))
  | Response status (Unreadable c) => (""%string, Usage_zero, Some (ErrRead c))
  | Response status (Undecodable raw c) => (""%string, Usage_zero, Some (ErrParse c))
  | Response status (Decoded raw apiResp) =>
      match resp_Error apiResp with
      | Some e => (""%string, Usage_zero, Some (ErrAPI (err_Message e) (err_Type e)))
      | None =>
          if negb (status =? StatusOK)
          then (""%string, Usage_zero, Some (ErrStatus status raw))
          else match Choices apiResp with
               | [] => (""%string, Usage_zero, Some ErrNoChoices)
               | c :: _ => (Content (choice_Message c), resp_Usage apiResp, None)
               end
      end
  end.

(** The failure conditions of one call as the specification lists them: the
    request fails, the body cannot be read or parsed, the body carries an
    error object, the status is not 2xx, or there is no choice. *)
Definition status_2xx (status : Z) : Prop := 200 <= status < 300.

Definition spec_failure (x : exchange) : Prop :=
  match x with
  | MarshalFails _ | NewRequestFails _ | DoFails _ => True
  | Response _ (Unreadable _) | Response _ (Undecodable _ _) => True
  | Response status (Decoded _ apiResp) =>
      resp_Error apiResp <> None \/ ~ status_2xx status \/ Choices apiResp = []
  end.

(** The same list with the status test the source makes. *)
Definition code_failure (x : exchange) : Prop :=
  match x with
  | MarshalFails _ | NewRequestFails _ | DoFails _ => True
  | Response _ (Unreadable _) | Response _ (Undecodable _ _) => True
  | Response status (Decoded _ apiResp) =>
      resp_Error apiResp <> None \/ status <> StatusOK \/ Choices apiResp = []
  end.

(** *** Retry delay *)
Definition calculateRetryDelay (cfg : Config) (attempt : Z) : Z :=
  if negb (ExponentialBackoff cfg) then InitialRetryDelay cfg
  else
    let delay := mul (InitialRetryDelay cfg) (shl1 attempt) in
    if MaxRetryDelay cfg <? delay then MaxRetryDelay cfg else delay.

(** *** The processor and its observable effects *)

(** What the processor did to its collaborators, in order.  The source has
    no such field: the journal only makes "was called" and "was not called"
    statable. *)
Inductive effect : Type :=
| FxAcquire                              (* a completed [rateLimiter.Wait()] *)
| FxRender                               (* a call of [promptTemplate] *)
| FxCall (systemMsg prompt : string)     (* an invocation of [callOpenAI] *)
| FxSleep (delay : Z).                   (* [time.Sleep] / [time.After] elapsed *)

(** [AIProcessor]: the configuration and the two shared mutable objects it
    points to ([logger] and [httpClient] are not carried). *)
Record AIProcessor : Type := mkAIProcessor {
  config : Config;
  rateLimiter : RateLimiter;
  tokenTracker : token_tracker.TokenTracker;
  journal : list effect
}.

Definition with_defaults (c : Config) : Config :=
  let maxRetries := if MaxRetries c =? 0 then 3 else MaxRetries c in
  let initialRetryDelay :=
    if InitialRetryDelay c =? 0 then mul 2 second else InitialRetryDelay c in
  let maxRetryDelay :=
    if MaxRetryDelay c =? 0 then mul 10 second else MaxRetryDelay c in
  let timeout := if Timeout c =? 0 then mul 60 second else Timeout c in
  let batchSize := if BatchSize c =? 0 then 10 else BatchSize c in
  let maxConcurrent := if MaxConcurrent c =? 0 then 5 else MaxConcurrent c in
  let rateLimitPerMin := if RateLimitPerMin c =? 0 then 60 else RateLimitPerMin c in
  mkConfig (APIKey c) (Model c) (MaxTokens c) timeout (SystemMessage c)
           batchSize maxConcurrent rateLimitPerMin
           maxRetries initialRetryDelay maxRetryDelay (ExponentialBackoff c)
           (TrackTokenUsage c) (TrackTiming c) (ShowProgress c).

Definition NewAIProcessor (c : Config) : option AIProcessor :=
  let c' := with_defaults c in
  match NewRateLimiter (RateLimitPerMin c') with
  | Some rl => Some (mkAIProcessor c' rl (token_tracker.NewTokenTracker (Model c')) [])
  | None => None
  end.

(** A computation on the processor: it returns, panics, or is parked for
    ever on a channel operation. *)
Inductive outcome (A : Type) : Type :=
| Done (a : A) (ap : AIProcessor)
| Panics
| Blocks.
Arguments Done {A} a ap.
Arguments Panics {A}.
Arguments Blocks {A}.

Definition M (A : Type) : Type := AIProcessor -> outcome A.

Definition ret {A : Type} (a : A) : M A := fun ap => Done a ap.

Definition bind {A B : Type} (m : M A) (k : A -> M B) : M B :=
  fun ap => match m ap with
            | Done a ap' => k a ap'
            | Panics => Panics
            | Blocks => Blocks
            end.

Notation "'let*' x := m 'in' k" := (bind m (fun x => k))
  (at level 10, x name, m at level 100, k at level 200, only parsing).

Definition panic {A : Type} : M A := fun _ => Panics.

Definition log (fx : effect) : M unit :=
  fun ap => Done tt (mkAIProcessor (config ap) (rateLimiter ap) (tokenTracker ap)
                                   (journal ap ++ [fx])).

(** A caller of [Wait] that finds the channel empty stays parked until the
    refill goroutine's next send lands, and receives that element. *)
Definition await (rl : RateLimiter) : option RateLimiter :=
  match Wait rl with
  | Some rl' => Some rl'
  | None => Wait (refill rl)
  end.

(** [ap.rateLimiter.Wait()] *)
Definition rateLimiterWait : M unit :=
  fun ap => match await (rateLimiter ap) with
            | Some rl' =>
                log FxAcquire
                    (mkAIProcessor (config ap) rl' (tokenTracker ap) (journal ap))
            | None => Blocks
            end.

(** [ap.tokenTracker.RecordUsage(weekLabel, promptTokens, completionTokens)] *)
Definition recordUsage (weekLabel : string) (promptTokens completionTokens : Z) : M unit :=
  fun ap => Done tt (mkAIProcessor (config ap) (rateLimiter ap)
                       (token_tracker.RecordUsage weekLabel promptTokens completionTokens
                                                  (tokenTracker ap))
                       (journal ap)).

Definition sleep (delay : Z) : M unit := log (FxSleep delay).

Definition default_system_message : string :=
  "Bạn là chuyên gia phân tích dữ liệu dành cho ứng dụng giáo dục tài chính trẻ em. Trả về CHÍNH XÁC định dạng JSON được yêu cầu, không thêm markdown hay text khác.".

(** [callOpenAI]: the request carries the configured (or default) system
    message and the prompt; [x] is what the network does with it. *)
Definition callOpenAI (x : exchange) (prompt : string) : M (string * Usage * option error) :=
  fun ap =>
    let systemMsg :=
      if String.eqb (SystemMessage (config ap)) "" then default_system_message
      else SystemMessage (config ap) in
    (let* _ := log (FxCall systemMsg prompt) in ret (classify x)) ap.

(** The values a Go [for attempt := lo; attempt < lo + n; attempt++] visits. *)
Definition attempts_from (lo : Z) (n : nat) : list Z :=
  map (fun k => lo + Z.of_nat k) (seq 0 n).

(** What one item observes of its surroundings while it is processed: the
    cancellation state of [ctx] at each place the source looks at it, the
    fate of each transport call, and the clock. *)
Record ItemEnv : Type := mkItemEnv {
  ctx_at_entry : option ctx_error;
  ctx_before : Z -> option ctx_error;
  round_trip : Z -> exchange;
  ctx_in_wait : Z -> option ctx_error;
  since : Z -> Z
}.

Definition nl : string := String (Ascii.ascii_of_nat 10) EmptyString.

(** The loop of [ProcessSingleWithWeek]; [response] and [err] are the
    variables declared before it.  A successful call records its usage and
    leaves the loop. *)
Fixpoint single_loop (env : ItemEnv) (prompt systemMessage weekLabel : string)
    (attempts : list Z) (response : string) (err : option error)
    : M (string * option error) :=
  match attempts with
  | [] => ret (response, err)
  | attempt :: rest =>
      fun ap =>
      (let* _ := (if 0 <? attempt
                  then sleep (calculateRetryDelay (config ap) attempt)
                  else ret tt) in
       let fullPrompt :=
         if negb (String.eqb systemMessage "")
         then ("System: " ++ systemMessage ++ nl ++ nl ++ "User: " ++ prompt)%string
         else prompt in
       let* r := callOpenAI (round_trip env attempt) fullPrompt in
       match r with
       | (response', usage, None) =>
           let* _ := recordUsage weekLabel (PromptTokens usage) (CompletionTokens usage) in
           ret (response', None)
       | (response', _, Some e) =>
           single_loop env prompt systemMessage weekLabel rest response' (Some e)
       end) ap
  end.

Definition ProcessSingleWithWeek (env : ItemEnv)
    (prompt systemMessage weekLabel : string) : M (string * option error) :=
  fun ap =>
  (let* _ := rateLimiterWait in
   let* r := single_loop env prompt systemMessage weekLabel
               (attempts_from 0 (Z.to_nat (MaxRetries (config ap)))) "" None in
   match r with
   | (_, Some e) => ret (""%string, Some (ErrFailedAfter (MaxRetries (config ap)) e))
   | (response, None) => ret (response, None)
   end) ap.

Definition ProcessSingle (env : ItemEnv) (prompt systemMessage : string)
    : M (string * option error) :=
  ProcessSingleWithWeek env prompt systemMessage "unknown".

(** The loop of [ProcessSingleDeprecated]: the usage of a successful call is
    dropped. *)
Fixpoint deprecated_loop (env : ItemEnv) (prompt systemMessage : string)
    (attempts : list Z) (response : string) (err : option error)
    : M (string * option error) :=
  match attempts with
  | [] => ret (response, err)
  | attempt :: rest =>
      fun ap =>
      (let* _ := (if 0 <? attempt
                  then sleep (calculateRetryDelay (config ap) attempt)
                  else ret tt) in
       let fullPrompt :=
         if negb (String.eqb systemMessage "")
         then ("System: " ++ systemMessage ++ nl ++ nl ++ "User: " ++ prompt)%string
         else prompt in
       let* r := callOpenAI (round_trip env attempt) fullPrompt in
       match r with
       | (response', _, None) => ret (response', None)
       | (response', _, Some e) =>
           deprecated_loop env prompt systemMessage rest response' (Some e)
       end) ap
  end.

Definition ProcessSingleDeprecated (env : ItemEnv)
    (prompt systemMessage : string) : M (string * option error) :=
  fun ap =>
  (let* _ := rateLimiterWait in
   let* r := deprecated_loop env prompt systemMessage
               (attempts_from 0 (Z.to_nat (MaxRetries (config ap)))) "" None in
   match r with
   | (_, Some e) => ret (""%string, Some (ErrFailedAfter (MaxRetries (config ap)) e))
   | (response, None) => ret (response, None)
   end) ap.

Section Items.

(** The type of work items ([interface{}] in the source). *)
Variable T : Type.

(** [ProcessResult]; a nil [Input] is [None]. *)
Record ProcessResult : Type := mkProcessResult {
  Index : Z;
  Input : option T;
  Output : string;
  Success : bool;
  Error : option error;
  Retries : Z;
  Duration : Z;
  TokenUsage : Usage
}.

Definition ProcessResult_zero : ProcessResult :=
  mkProcessResult 0 None "" false None 0 0 Usage_zero.

(** The loop of [processItemWithRetry] over the attempts that remain;
    [lastError] and [retryCount] are the variables declared before it.  The
    empty list is the code after the loop. *)
Fixpoint retry_loop (env : ItemEnv) (index : Z) (item : T)
    (promptTemplate : T -> string) (attempts : list Z)
    (lastError : option error) (retryCount : Z) : M ProcessResult :=
  match attempts with
  | [] =>
      match lastError with
      | None => panic
      | Some e =>
          fun ap =>
          ret (mkProcessResult index (Some item) "" false (Some e) retryCount
                 (since env (MaxRetries (config ap) + 1)) Usage_zero) ap
      end
  | attempt :: rest =>
      match ctx_before env attempt with
      | Some ce =>
          ret (mkProcessResult index (Some item) "" false (Some (ErrContext ce))
                 retryCount (since env attempt) Usage_zero)
      | None =>
          let* _ := rateLimiterWait in
          let* _ := log FxRender in
          let prompt := promptTemplate item in
          if String.eqb prompt ""
          then ret (mkProcessResult index (Some item) "" false (Some ErrEmptyPrompt)
                      0 (since env attempt) Usage_zero)
          else
            let* r := callOpenAI (round_trip env attempt) prompt in
            match r with
            | (output, usage, None) =>
                ret (mkProcessResult index (Some item) output true None
                       retryCount (since env attempt) usage)
            | (_, _, Some e) =>
                let retryCount' := add retryCount 1 in
                fun ap =>
                if attempt <? MaxRetries (config ap)
                then
                  let delay := calculateRetryDelay (config ap) attempt in
                  match ctx_in_wait env attempt with
                  | Some ce =>
                      ret (mkProcessResult index (Some item) "" false
                             (Some (ErrContext ce)) retryCount'
                             (since env attempt) Usage_zero) ap
                  | None =>
                      (let* _ := sleep delay in
                       retry_loop env index item promptTemplate rest
                                  (Some e) retryCount') ap
                  end
                else retry_loop env index item promptTemplate rest
                                (Some e) retryCount' ap
            end
      end
  end.

(** [for attempt := 0; attempt <= MaxRetries; attempt++] visits the attempts
    [0 .. MaxRetries]; the counter cannot wrap before the bound is reached
    unless [MaxRetries] is the largest [int], which is left out. *)
Definition processItemWithRetry (env : ItemEnv) (index : Z) (item : T)
    (promptTemplate : T -> string) : M ProcessResult :=
  fun ap =>
    retry_loop env index item promptTemplate
               (attempts_from 0 (Z.to_nat (MaxRetries (config ap) + 1))) None 0 ap.

(** The body of the goroutine [ProcessBatch] starts for one item, between
    taking and releasing its semaphore slot. *)
Definition worker (env : ItemEnv) (index : Z) (item : T)
    (promptTemplate : T -> string) : M ProcessResult :=
  match ctx_at_entry env with
  | Some ce =>
      ret (mkProcessResult index (Some item) "" false (Some (ErrContext ce))
             0 0 Usage_zero)
  | None => processItemWithRetry env index item promptTemplate
  end.

End Items.

Arguments mkProcessResult {T}.
Arguments Index {T}.
Arguments Input {T}.
Arguments Output {T}.
Arguments Success {T}.
Arguments Error {T}.
Arguments Retries {T}.
Arguments Duration {T}.
Arguments TokenUsage {T}.
Arguments ProcessResult_zero {T}.
Arguments retry_loop {T}.
Arguments processItemWithRetry {T}.
Arguments worker {T}.

(** *** Vocabulary for the statements below *)

(** The system message [callOpenAI] sends. *)
Definition system_of (ap : AIProcessor) : string :=
  if String.eqb (SystemMessage (config ap)) "" then default_system_message
  else SystemMessage (config ap).

(** The processor after its limiter moved to [rl] and it did [fxs]. *)
Definition with_limiter (ap : AIProcessor) (rl : RateLimiter) (fxs : list effect)
    : AIProcessor :=
  mkAIProcessor (config ap) rl (tokenTracker ap) (journal ap ++ fxs).

(** What a run of the loop leaves alone. *)
Definition frame (ap ap' : AIProcessor) : Prop :=
  config ap' = config ap
  /\ tokenTracker ap' = tokenTracker ap
  /\ capacity (rateLimiter ap') = capacity (rateLimiter ap).

(** A terminal failure without a retry, a wait or a transport call: the
    outcome has [Success = false] and [Retries = 0], and between [ap] and the
    return the processor did nothing but take rate-limiter tokens and
    render. *)
Definition immediate_failure {T : Type} (ap : AIProcessor)
    (o : outcome (ProcessResult T)) : Prop :=
  exists r ap' fxs,
    o = Done r ap'
    /\ Success r = false /\ Retries r = 0 /\ Error r <> None
    /\ journal ap' = journal ap ++ fxs
    /\ Forall (fun fx => fx = FxAcquire \/ fx = FxRender) fxs.

(** How often the processor took a rate-limiter token, rendered a prompt,
    invoked [callOpenAI] and waited, according to a piece of journal. *)
Fixpoint acquires (fxs : list effect) : nat :=
  match fxs with
  | [] => 0
  | FxAcquire :: rest => S (acquires rest)
  | _ :: rest => acquires rest
  end.

Fixpoint renders (fxs : list effect) : nat :=
  match fxs with
  | [] => 0
  | FxRender :: rest => S (renders rest)
  | _ :: rest => renders rest
  end.

Fixpoint calls (fxs : list effect) : nat :=
  match fxs with
  | [] => 0
  | FxCall _ _ :: rest => S (calls rest)
  | _ :: rest => calls rest
  end.

Fixpoint sleeps (fxs : list effect) : nat :=
  match fxs with
  | [] => 0
  | FxSleep _ :: rest => S (sleeps rest)
  | _ :: rest => sleeps rest
  end.

(** The refill ticks and the completed [Wait]s among limiter events. *)
Fixpoint ticks (evs : list limiter_event) : nat :=
  match evs with
  | [] => 0
  | Tick :: rest => S (ticks rest)
  | Acquire :: rest => ticks rest
  end.

Fixpoint waits (evs : list limiter_event) : nat :=
  match evs with
  | [] => 0
  | Tick :: rest => waits rest
  | Acquire :: rest => S (waits rest)
  end.

(** An outcome with the tracker put back to [tt]. *)
Definition with_tracker {A : Type} (tt : token_tracker.TokenTracker)
    (o : outcome A) : outcome A :=
  match o with
  | Done a ap => Done a (mkAIProcessor (config ap) (rateLimiter ap) tt (journal ap))
  | Panics => Panics
  | Blocks => Blocks
  end.

(** The prompt the single-item path sends, and what one attempt of it adds
    to the journal. *)
Definition full_prompt (systemMessage prompt : string) : string :=
  if negb (String.eqb systemMessage "")
  then ("System: " ++ systemMessage ++ nl ++ nl ++ "User: " ++ prompt)%string
  else prompt.

Definition single_effects (ap : AIProcessor) (attempt : Z)
    (systemMessage prompt : string) : list effect :=
  (if 0 <? attempt then [FxSleep (calculateRetryDelay (config ap) attempt)] else [])
  ++ [FxCall (system_of ap) (full_prompt systemMessage prompt)].

(** *** The batch scheduler

    [ProcessBatch] runs one main goroutine and one goroutine per item.  Its
    executions are the interleavings of the following events; a schedule is
    a list of them.  What a goroutine does between taking its slot and
    releasing it is one event: its effect on the limiter and the journal is
    applied when it finishes. *)
Inductive event : Type :=
| EvGo (i : Z)                      (* main: [wg.Add(1); go func(i, items[i])] *)
| EvSlot (i : Z)                    (* goroutine [i]: [semaphore <- struct{}{}] *)
| EvFinish (i : Z) (env : ItemEnv)  (* goroutine [i]: the body, [results[i] = ...],
                                       slot released, [wg.Done()] *)
| EvBarrier                         (* main: [wg.Wait()] returns, next batch *)
| EvSummary.                        (* main: summary statistics, [return results] *)

Inductive phase : Type := Spawning | Summarising | Returned | Crashed.

Section Scheduler.

Variable T : Type.
Variable items : list T.
Variable promptTemplate : T -> string.

(** The variables of one call of [ProcessBatch]: the [results] slice, the
    loop variables of main, the goroutines waiting for a semaphore slot and
    those holding one, where main is, and the processor. *)
Record run : Type := mkRun {
  results : list (ProcessResult T);
  batchStart : Z;
  batchEnd : Z;
  i_next : Z;
  queued : list Z;
  holding : list Z;
  at_ : phase;
  proc : AIProcessor
}.

Definition crash (s : run) : run :=
  mkRun (results s) (batchStart s) (batchEnd s) (i_next s)
        (queued s) (holding s) Crashed (proc s).

Definition without (i : Z) (l : list Z) : list Z := filter (fun j => j <> i) l.

(** The head of the outer loop, entered with [batchStart = bs]. *)
Definition loop_head (s : run) (bs : Z) : run :=
  let n := Z.of_nat (length items) in
  if bs <? n then
    let e := add bs (BatchSize (config (proc s))) in
    let e' := if n <? e then n else e in
    mkRun (results s) bs e' bs (queued s) (holding s) Spawning (proc s)
  else
    mkRun (results s) bs (batchEnd s) (i_next s) (queued s) (holding s)
          Summarising (proc s).

(** The statements before the outer loop: [make] panics on a negative
    channel size, and [totalBatches] divides by the batch size. *)
Definition ProcessBatch_start (ap : AIProcessor) : run :=
  let s0 := mkRun (replicate (length items) ProcessResult_zero) 0 0 0 [] []
                  Spawning ap in
  if MaxConcurrent (config ap) <? 0 then crash s0
  else if BatchSize (config ap) =? 0 then crash s0
  else loop_head s0 0.

(** [items[i]] *)
Definition item_at (i : Z) : option T :=
  if i <? 0 then None else items !! Z.to_nat i.

Definition step (ev : event) (s : run) : option run :=
  match at_ s with
  | Spawning =>
      match ev with
      | EvGo i =>
          if bool_decide (i = i_next s) && (i_next s <? batchEnd s)
          then match item_at i with
               | Some _ =>
                   Some (mkRun (results s) (batchStart s) (batchEnd s) (add i 1)
                               (queued s ++ [i]) (holding s) Spawning (proc s))
               | None => Some (crash s)
               end
          else None
      | EvSlot i =>
          if bool_decide (i ∈ queued s)
             && (Z.of_nat (length (holding s)) <? MaxConcurrent (config (proc s)))
          then Some (mkRun (results s) (batchStart s) (batchEnd s) (i_next s)
                           (without i (queued s)) (holding s ++ [i]) Spawning (proc s))
          else None
      | EvFinish i env =>
          if bool_decide (i ∈ holding s)
          then match item_at i with
               | Some item =>
                   match worker env i item promptTemplate (proc s) with
                   | Done r ap' =>
                       Some (mkRun (<[Z.to_nat i := r]> (results s))
                                   (batchStart s) (batchEnd s) (i_next s)
                                   (queued s) (without i (holding s)) Spawning ap')
                   | Panics => Some (crash s)
                   | Blocks => None
                   end
               | None => None
               end
          else None
      | EvBarrier =>
          if negb (i_next s <? batchEnd s)
             && bool_decide (queued s = []) && bool_decide (holding s = [])
          then Some (loop_head s (add (batchStart s) (BatchSize (config (proc s)))))
          else None
      | EvSummary => None
      end
  | Summarising =>
      match ev with
      | EvSummary =>
          if Z.of_nat (length items) =? 0
          then Some (crash s)
          else Some (mkRun (results s) (batchStart s) (batchEnd s) (i_next s)
                           (queued s) (holding s) Returned (proc s))
      | _ => None
      end
  | Returned => None
  | Crashed => None
  end.

Fixpoint exec (schedule : list event) (s : run) : option run :=
  match schedule with
  | [] => Some s
  | ev :: rest => match step ev s with
                  | Some s' => exec rest s'
                  | None => None
                  end
  end.

(** [ProcessBatch] under a schedule: the state reached, if the schedule is
    one the program can follow. *)
Definition ProcessBatch (ap : AIProcessor) (schedule : list event) : option run :=
  exec schedule (ProcessBatch_start ap).

End Scheduler.

Arguments mkRun {T}.
Arguments results {T}.
Arguments batchStart {T}.
Arguments batchEnd {T}.
Arguments i_next {T}.
Arguments queued {T}.
Arguments holding {T}.
Arguments at_ {T}.
Arguments proc {T}.
Arguments crash {T}.
Arguments loop_head {T}.
Arguments ProcessBatch_start {T}.
Arguments item_at {T}.
Arguments step {T}.
Arguments exec {T}.
Arguments ProcessBatch {T}.

(** *** Vocabulary for the scheduler's executions *)
Section SchedulerVocabulary.

Variable T : Type.
Variable items : list T.
Variable ap0 : AIProcessor.

(** Goroutine [i] finished within the events [pre]. *)
Definition finished (pre : list event) (i : Z) : Prop :=
  exists env, EvFinish i env ∈ pre.

(** [results[i]] has been assigned the outcome of item [i]. *)
Definition assigned (pre : list event) (s : run T) (i : Z) : Prop :=
  finished pre i
  /\ exists r, results s !! Z.to_nat i = Some r /\ Index r = i.

(** The event belongs to item [i]: its goroutine is started, takes its
    slot, or finishes. *)
Definition concerns (ev : event) (i : Z) : Prop :=
  ev = EvGo i \/ ev = EvSlot i \/ exists env, ev = EvFinish i env.

(** What holds of the variables of [ProcessBatch] while main is in the outer
    loop, after the events [pre] of a call started on [ap0]. *)
Definition spawning_inv (pre : list event) (s : run T) : Prop :=
  let n := Z.of_nat (length items) in
  let b := BatchSize (config ap0) in
  frame ap0 (proc s)
  /\ length (results s) = length items
  /\ (exists k, 0 <= k /\ batchStart s = k * b)
  /\ batchStart s < n
  /\ batchEnd s = Z.min (batchStart s + b) n
  /\ batchStart s <= i_next s <= batchEnd s
  /\ (forall i, i ∈ queued s \/ i ∈ holding s -> batchStart s <= i < i_next s)
  /\ (forall i, 0 <= i < i_next s -> i ∉ queued s -> i ∉ holding s -> assigned pre s i).

(** ... and once the outer loop is left. *)
Definition drained_inv (pre : list event) (s : run T) : Prop :=
  frame ap0 (proc s)
  /\ length (results s) = length items
  /\ queued s = [] /\ holding s = []
  /\ (forall i, 0 <= i < Z.of_nat (length items) -> assigned pre s i).

Definition sched_inv (pre : list event) (s : run T) : Prop :=
  match at_ s with
  | Spawning => spawning_inv pre s
  | Summarising | Returned => drained_inv pre s
  | Crashed => True
  end.

(** A bound on the events a call can still take before main leaves the
    outer loop. *)
Definition remaining (s : run T) : Z :=
  let n := Z.of_nat (length items) in
  4 * (n - i_next s) + 2 * Z.of_nat (length (queued s))
  + Z.of_nat (length (holding s)) + (n - batchStart s).

End SchedulerVocabulary.

Arguments assigned {T}.
Arguments spawning_inv {T}.
Arguments drained_inv {T}.
Arguments sched_inv {T}.
Arguments remaining {T}.

End processor.

(** ** formatter.go

    The functions of the table formatter that build a value; a function that
    only logs a line is given as the line it logs. *)
Module formatter.
Import goint.

Definition sub (a b : Z) : Z := wrap64 (a - b).

(** [a / b] on [int]: truncated division; [b] is not zero where it is
    used. *)
Definition div (a b : Z) : Z := wrap64 (Z.quot a b).

(** [len(text)]: the number of bytes. *)
Definition len (text : string) : Z := Z.of_nat (String.length text).

Fixpoint copies (s : string) (k : nat) : string :=
  match k with
  | O => ""
  | S k' => s ++ copies s k'
  end.

(** [strings.Repeat(s, count)]: panics on a negative count, and when
    [len(s) * count] does not fit an [int]. *)
Definition Repeat (s : string) (count : Z) : option string :=
  if count <? 0 then None
  else if 2^63 <=? len s * count then None
  else Some (copies s (Z.to_nat count)).

Record TableFormatter : Type := mkTableFormatter { tableWidth : Z }.

Definition NewTableFormatter (tableWidth : Z) : TableFormatter :=
  mkTableFormatter (if tableWidth =? 0 then 150 else tableWidth).

(** [SuccessRate] is a [float64]: it is kept as the two counts the source
    divides. *)
Inductive rate : Type :=
| RateUnset
| RatePercent (successCount totalItems : Z).

Record ResultSummary : Type := mkResultSummary {
  TotalItems : Z;
  SuccessCount : Z;
  FailureCount : Z;
  TotalRetries : Z;
  TotalTokens : Z;
  TotalDuration : Z;
  AverageDuration : Z;
  SuccessRate : rate;
  AvgTokensPerItem : Z
}.

(** One iteration of the loop of [calculateSummary]. *)
Definition tally {T : Type} (summary : ResultSummary)
    (result : processor.ProcessResult T) : ResultSummary :=
  let successCount :=
    if processor.Success result then add (SuccessCount summary) 1
    else SuccessCount summary in
  let totalTokens :=
    if processor.Success result
    then add (TotalTokens summary)
             (processor.TotalTokens (processor.TokenUsage result))
    else TotalTokens summary in
  let failureCount :=
    if processor.Success result then FailureCount summary
    else add (FailureCount summary) 1 in
  mkResultSummary (TotalItems summary) successCount failureCount
    (add (TotalRetries summary) (processor.Retries result))
    totalTokens
    (add (TotalDuration summary) (processor.Duration result))
    (AverageDuration summary) (SuccessRate summary) (AvgTokensPerItem summary).

Definition calculateSummary {T : Type} (results : list (processor.ProcessResult T))
    : ResultSummary :=
  let summary :=
    fold_left tally results
      (mkResultSummary (Z.of_nat (length results)) 0 0 0 0 0 0 RateUnset 0) in
  let summary :=
    if 0 <? TotalItems summary
    then mkResultSummary (TotalItems summary) (SuccessCount summary)
           (FailureCount summary) (TotalRetries summary) (TotalTokens summary)
           (TotalDuration summary)
           (div (TotalDuration summary) (TotalItems summary))
           (RatePercent (SuccessCount summary) (TotalItems summary))
           (AvgTokensPerItem summary)
    else summary in
  if 0 <? SuccessCount summary
  then mkResultSummary (TotalItems summary) (SuccessCount summary)
         (FailureCount summary) (TotalRetries summary) (TotalTokens summary)
         (TotalDuration summary) (AverageDuration summary) (SuccessRate summary)
         (div (TotalTokens summary) (SuccessCount summary))
  else summary.

(** [printSeparator]: the line logged. *)
Definition printSeparator (tf : TableFormatter) (char : string) : option string :=
  Repeat char (tableWidth tf).

(** [printCentered]: the line logged. *)
Definition printCentered (tf : TableFormatter) (text : string) : option string :=
  let padding := div (sub (tableWidth tf) (len text)) 2 in
  let padding := if padding <? 0 then 0 else padding in
  match Repeat " " padding with
  | Some spaces => Some (spaces ++ text)%string
  | None => None
  end.

(** [text[:width]]: panics unless [0 <= width <= len(text)]. *)
Definition slice_to (text : string) (width : Z) : option string :=
  if (width <? 0) || (len text <? width) then None
  else Some (String.substring 0 (Z.to_nat width) text).

Definition centerText (text : string) (width : Z) : option string :=
  if width <=? len text then slice_to text width
  else
    let padding := div (sub width (len text)) 2 in
    match Repeat " " padding,
          Repeat " " (sub (sub width (len text)) padding) with
    | Some before, Some after => Some (before ++ text ++ after)%string
    | _, _ => None
    end.

End formatter.

(** ** week_manager.go *)
Module weekmanager.
Import goint.

(** [%d] and [%02d] of [fmt.Sprintf] on an integer. *)
Definition fmt_d (z : Z) : string := NilZero.string_of_int (Z.to_int z).

Definition fmt_02d (z : Z) : string :=
  let s := fmt_d z in
  if (String.length s <? 2)%nat then ("0" ++ s)%string else s.

Section Calendar.

(** [time.Time] and the two functions of it the week manager uses. *)
Variable Time : Type.
Variable AddDate : Time -> Z -> Z -> Z -> Time.
Variable Month : Time -> Z.

Record WeekRange : Type := mkWeekRange {
  WeekNumber : Z;
  Label : string;
  StartDate : Time;
  EndDate : Time
}.

(** [WeekData]; a nil pointer is [None]. *)
Record WeekData : Type := mkWeekData {
  CurrentWeek : WeekRange;
  PreviousWeek : option WeekRange;
  TwoWeeksAgo : option WeekRange
}.

(** What the database hands back: the query fails, or it yields rows, each
    of which scans or does not, and the iteration ends with or without an
    error. *)
Inductive scan : Type :=
| ScanFails (cause : string)
| Scanned (weekStart : Time).

Inductive query : Type :=
| QueryFails (cause : string)
| Rows (rows : list scan) (iterationError : option string).

Inductive week_error : Type :=
| ErrQueryWeeks (cause : string)
| ErrScanWeek (cause : string)
| ErrIterateWeeks (cause : string).

Definition week_label (weekNum : Z) (weekStart : Time) : string :=
  ("Tuần " ++ fmt_d weekNum ++ " - Tháng " ++ fmt_02d (Month weekStart)
   ++ "/2025")%string.

(** The loop [for rows.Next()] of [GetAvailableWeeks]. *)
Fixpoint scan_weeks (rows : list scan) (weekNum : Z) (weeks : list WeekRange)
    : week_error + list WeekRange :=
  match rows with
  | [] => inr weeks
  | ScanFails cause :: _ => inl (ErrScanWeek cause)
  | Scanned weekStart :: rest =>
      let weekEnd := AddDate weekStart 0 0 7 in
      let label := week_label weekNum weekStart in
      scan_weeks rest (add weekNum 1)
                 (weeks ++ [mkWeekRange weekNum label weekStart weekEnd])
  end.

Definition GetAvailableWeeks (q : query) : week_error + list WeekRange :=
  match q with
  | QueryFails cause => inl (ErrQueryWeeks cause)
  | Rows rows iterationError =>
      match scan_weeks rows 1 [] with
      | inl e => inl e
      | inr weeks =>
          match iterationError with
          | Some cause => inl (ErrIterateWeeks cause)
          | None => inr weeks
          end
      end
  end.

(** The search loop of [GetWeekData]: the index of the first week with the
    number, or -1. *)
Fixpoint first_index (number : Z) (allWeeks : list WeekRange) (i : Z) : Z :=
  match allWeeks with
  | [] => -1
  | w :: rest =>
      if WeekNumber w =? number then i else first_index number rest (i + 1)
  end.

Definition GetWeekData (currentWeek : WeekRange) (allWeeks : list WeekRange)
    : WeekData :=
  let currentIdx := first_index (WeekNumber currentWeek) allWeeks 0 in
  let previousWeek :=
    if 0 <? currentIdx then allWeeks !! Z.to_nat (currentIdx - 1) else None in
  let twoWeeksAgo :=
    if 1 <? currentIdx then allWeeks !! Z.to_nat (currentIdx - 2) else None in
  mkWeekData currentWeek previousWeek twoWeeksAgo.

Definition HasHistoricalData (wd : WeekData) : bool :=
  match PreviousWeek wd with
  | Some _ => true
  | None => false
  end.

Definition HasTwoWeeksHistory (wd : WeekData) : bool :=
  match PreviousWeek wd, TwoWeeksAgo wd with
  | Some _, Some _ => true
  | _, _ => false
  end.

End Calendar.

Arguments mkWeekRange {Time}.
Arguments WeekNumber {Time}.
Arguments Label {Time}.
Arguments StartDate {Time}.
Arguments EndDate {Time}.
Arguments mkWeekData {Time}.
Arguments CurrentWeek {Time}.
Arguments PreviousWeek {Time}.
Arguments TwoWeeksAgo {Time}.
Arguments ScanFails {Time}.
Arguments Scanned {Time}.
Arguments QueryFails {Time}.
Arguments Rows {Time}.
Arguments week_label {Time}.
Arguments scan_weeks {Time}.
Arguments GetAvailableWeeks {Time}.
Arguments first_index {Time}.
Arguments GetWeekData {Time}.
Arguments HasHistoricalData {Time}.
Arguments HasTwoWeeksHistory {Time}.

End weekmanager.

(** ** Concrete configurations, environments and inputs

    The inputs at which the properties below are evaluated. *)
Module scenarios.
Import processor.

(** The delays [NewAIProcessor] sets when none are configured, 2 s initial
    and 10 s maximum, with 40 retries allowed. *)
Definition backoff_2s_10s : Config :=
  mkConfig "" "gpt-4o" 0 0 "" 10 5 60 40 (2 * second) (10 * second) true
           false false false.

Definition backoff_15s_10s : Config :=
  mkConfig "" "gpt-4o" 0 0 "" 10 5 60 3 (15 * second) (10 * second) true
           false false false.

(** A processor as [NewAIProcessor] makes it: 60 requests per minute,
    batches of 2, 2 at a time, at most 2 retries. *)
Definition cfg_r2 : Config :=
  mkConfig "key" "gpt-4o" 4000 0 "" 2 2 60 2 0 0 true true true true.

Definition ap_r2 : AIProcessor :=
  mkAIProcessor (with_defaults cfg_r2) (mkRateLimiter 60 60 second)
                (token_tracker.NewTokenTracker "gpt-4o") [].

(** A well-formed completion: one choice, usage 10 + 5. *)
Definition completion : OpenAIResponse :=
  mkOpenAIResponse "chatcmpl-1" "chat.completion" 0 "gpt-4o"
    [mkChoice 0 (mkMessage "assistant" "{}") "stop"] (mkUsage 10 5 15) None.

(** The same body answered with status 201 Created. *)
Definition created_201 : exchange := Response 201 (Decoded "{}" completion).

Definition ok_200 : exchange := Response 200 (Decoded "{}" completion).

(** No cancellation, every call answered 200 with [completion]. *)
Definition env_ok : ItemEnv :=
  mkItemEnv None (fun _ => None) (fun _ => ok_200) (fun _ => None) (fun _ => 0).

(** No cancellation, every call fails at the connection. *)
Definition env_down : ItemEnv :=
  mkItemEnv None (fun _ => None) (fun _ => DoFails "connection refused")
            (fun _ => None) (fun _ => 0).

(** Three items in batches of two: items 0 and 1 run side by side and finish
    in the opposite order, item 0 after exhausting its retries; item 2
    follows the barrier. *)
Definition three_items : list string := ["a"; "b"; "c"]%string.

Definition render_id (item : string) : string := item.

Definition first_batch : list event :=
  [EvGo 0; EvGo 1; EvSlot 1; EvSlot 0; EvFinish 1 env_ok; EvFinish 0 env_down;
   EvBarrier].

Definition second_batch : list event :=
  [EvSlot 2; EvFinish 2 env_ok; EvBarrier; EvSummary].

(** One item, processed without incident. *)
Definition one_item_run : list event :=
  [EvGo 0; EvSlot 0; EvFinish 0 env_ok; EvBarrier; EvSummary].

Definition full_run : list event := first_batch ++ EvGo 2 :: second_batch.

(** Two calls under one week label and one under another. *)
Definition three_calls : list token_tracker.call :=
  [token_tracker.mkCall "week1" 10 5; token_tracker.mkCall "week2" 7 3;
   token_tracker.mkCall "week1" 20 8].

End scenarios.

(** * Properties *)

Import goint.

(** ** 64-bit arithmetic *)

Lemma wrap64_in_int (z : Z) : in_int z -> wrap64 z = z.
Proof.
  unfold in_int, wrap64. intros Hz.
  rewrite Z.mod_small; lia.
Qed.

Lemma wrap64_range (z : Z) : in_int (wrap64 z).
Proof.
  unfold in_int, wrap64.
  pose proof (Z.mod_pos_bound (z + 2^63) (2^64)). lia.
Qed.

Lemma wrap64_add_l (a b : Z) : wrap64 (wrap64 a + b) = wrap64 (a + b).
Proof.
  unfold wrap64.
  replace ((a + 2^63) mod 2^64 - 2^63 + b + 2^63)
    with ((a + 2^63) mod 2^64 + b) by lia.
  rewrite Zplus_mod_idemp_l. f_equal. f_equal. lia.
Qed.

Lemma wrap64_add_r (a b : Z) : wrap64 (a + wrap64 b) = wrap64 (a + b).
Proof. rewrite Z.add_comm, wrap64_add_l. f_equal. lia. Qed.

Lemma shl1_small (k : Z) : 0 <= k < 63 -> shl1 k = 2^k.
Proof.
  intros Hk. unfold shl1, to_uint.
  rewrite Z.mod_small by lia.
  destruct (64 <=? k) eqn:E; [lia|].
  rewrite Z.shiftl_1_l. apply wrap64_in_int. unfold in_int.
  assert (0 < 2^k) by (apply Z.pow_pos_nonneg; lia).
  assert (2^k < 2^63) by (apply Z.pow_lt_mono_r; lia).
  lia.
Qed.

(** ** The usage tracker *)
Section TrackerFacts.
Import token_tracker.

Lemma record_all_snoc (calls : list call) (c : call) (tt : TokenTracker) :
  record_all (calls ++ [c]) tt
  = RecordUsage (c_label c) (c_prompt c) (c_completion c) (record_all calls tt).
Proof. unfold record_all. by rewrite fold_left_app. Qed.

Lemma sum_prompt_snoc calls c : sum_prompt (calls ++ [c]) = sum_prompt calls + c_prompt c.
Proof. induction calls as [|d calls IH]; simpl in *; lia. Qed.

Lemma sum_completion_snoc calls c :
  sum_completion (calls ++ [c]) = sum_completion calls + c_completion c.
Proof. induction calls as [|d calls IH]; simpl in *; lia. Qed.

Lemma sum_total_snoc calls c :
  sum_total (calls ++ [c]) = sum_total calls + (c_prompt c + c_completion c).
Proof. induction calls as [|d calls IH]; simpl in *; lia. Qed.

Lemma total_after (model : string) (calls : list call) :
  let t := GetTotalSummary (record_all calls (NewTokenTracker model)) in
  PromptTokens t = wrap64 (sum_prompt calls)
  /\ CompletionTokens t = wrap64 (sum_completion calls)
  /\ TotalTokens t = wrap64 (sum_total calls).
Proof.
  induction calls as [|c calls IH] using rev_ind; [vm_compute; auto|].
  simpl in *. rewrite record_all_snoc.
  destruct IH as (Hp & Hc & Ht).
  unfold GetTotalSummary in *. simpl. unfold add.
  rewrite Hp, Hc, Ht, sum_prompt_snoc, sum_completion_snoc, sum_total_snoc.
  by rewrite !wrap64_add_l, wrap64_add_r.
Qed.

Lemma week_slice_after (model label : string) (calls : list call) :
  week_slice (record_all calls (NewTokenTracker model)) label
  = map usage_of (under label calls).
Proof.
  induction calls as [|c calls IH] using rev_ind; [done|].
  rewrite record_all_snoc. unfold under in *. rewrite filter_app, map_app, <- IH.
  set (tt := record_all calls (NewTokenTracker model)).
  unfold week_slice at 1. unfold RecordUsage. simpl usageByWeek.
  destruct (decide (c_label c = label)) as [Heq|Hne].
  - rewrite Heq at 1. rewrite lookup_insert_eq. simpl.
    rewrite filter_cons_True by done. by rewrite Heq.
  - rewrite lookup_insert_ne by done. rewrite filter_cons_False by done.
    simpl. by rewrite app_nil_r.
Qed.

Lemma fold_accumulate (cs : list call) :
  let s := fold_left accumulate (map usage_of cs) TokenUsage_zero in
  PromptTokens s = wrap64 (sum_prompt cs)
  /\ CompletionTokens s = wrap64 (sum_completion cs)
  /\ TotalTokens s = wrap64 (sum_total cs).
Proof.
  induction cs as [|c cs IH] using rev_ind; [vm_compute; auto|].
  simpl in *. rewrite map_app, fold_left_app. simpl.
  destruct IH as (Hp & Hc & Ht). unfold add.
  rewrite Hp, Hc, Ht, sum_prompt_snoc, sum_completion_snoc, sum_total_snoc.
  by rewrite !wrap64_add_l, wrap64_add_r.
Qed.

Lemma GetWeekSummary_fold (label : string) (tt : TokenTracker) :
  GetWeekSummary label tt = fold_left accumulate (week_slice tt label) TokenUsage_zero.
Proof.
  unfold GetWeekSummary. by destruct (week_slice tt label).
Qed.


(** The sums are the mathematical ones whenever these fit in an [int]. *)
Corollary total_exact (model : string) (calls : list call) :
  in_int (sum_prompt calls) -> in_int (sum_completion calls) ->
  in_int (sum_total calls) ->
  let t := GetTotalSummary (record_all calls (NewTokenTracker model)) in
  PromptTokens t = sum_prompt calls
  /\ CompletionTokens t = sum_completion calls
  /\ TotalTokens t = sum_total calls.
Proof.
  intros Hp Hc Ht t. destruct (total_after model calls) as (Ep & Ec & Et).
  unfold t. rewrite Ep, Ec, Et. by rewrite !wrap64_in_int.
Qed.

End TrackerFacts.

Import processor scenarios.

(** The processor of the evaluations is the one the constructor makes. *)
Lemma ap_r2_made : NewAIProcessor cfg_r2 = Some ap_r2.
Proof. vm_compute. reflexivity. Qed.

(** ** The rate limiter *)
Section LimiterFacts.

Lemma fill_spec (n : nat) (rl : RateLimiter) :
  (tokens rl + n <= capacity rl)%nat ->
  fill n rl = Some (mkRateLimiter (tokens rl + n) (capacity rl) (refillRate rl)).
Proof.
  revert rl. induction n as [|n IH]; intros [t c r] Hle; simpl in *.
  - by rewrite Nat.add_0_r.
  - unfold send. simpl. destruct (Nat.ltb_spec t c); [|lia].
    rewrite IH; simpl; [|lia]. do 2 f_equal. lia.
Qed.

Lemma NewRateLimiter_Some (rpm : Z) (rl : RateLimiter) :
  NewRateLimiter rpm = Some rl ->
  0 < rpm /\ 0 < Z.quot minute rpm
  /\ rl = mkRateLimiter (Z.to_nat rpm) (Z.to_nat rpm) (Z.quot minute rpm).
Proof.
  unfold NewRateLimiter.
  destruct (Z.ltb_spec rpm 0); [done|].
  destruct (Z.eqb_spec rpm 0); [done|].
  rewrite fill_spec by (simpl; lia). simpl.
  destruct (Z.leb_spec (Z.quot minute rpm) 0); [done|].
  intros [= <-]. repeat split; lia.
Qed.

Lemma limiter_step_inv (ev : limiter_event) (rl rl' : RateLimiter) :
  limiter_step ev rl = Some rl' ->
  (tokens rl <= capacity rl)%nat ->
  capacity rl' = capacity rl /\ (tokens rl' <= capacity rl')%nat.
Proof.
  destruct rl as [t c r]. destruct ev; simpl; unfold refill, send, Wait; simpl.
  - destruct (Nat.ltb_spec t c); intros [= <-] ?; simpl; lia.
  - destruct t; [done|]. intros [= <-] ?; simpl; lia.
Qed.

Lemma limiter_run_inv (evs : list limiter_event) (rl rl' : RateLimiter) :
  limiter_run evs rl = Some rl' ->
  (tokens rl <= capacity rl)%nat ->
  capacity rl' = capacity rl /\ (tokens rl' <= capacity rl')%nat.
Proof.
  revert rl. induction evs as [|ev evs IH]; intros rl; simpl.
  - by intros [= <-].
  - destruct (limiter_step ev rl) as [rl1|] eqn:E; [|done].
    intros Hrun Hle. destruct (limiter_step_inv _ _ _ E Hle) as [Hc Ht].
    destruct (IH _ Hrun Ht) as [Hc' Ht']. split; [congruence|done].
Qed.

Lemma await_Some (rl : RateLimiter) :
  (0 < capacity rl)%nat -> exists rl', await rl = Some rl'.
Proof.
  destruct rl as [t c r]. simpl. intros Hc. unfold await, Wait, refill, send. simpl.
  destruct t; [|eauto]. destruct (Nat.ltb_spec 0 c); [|lia]. simpl. eauto.
Qed.

(** C7. A limiter made by [NewRateLimiter] starts with exactly [capacity]
    = requests-per-minute tokens.  In every state it can reach by refill
    ticks and completed [Wait]s: the capacity is unchanged and the pool
    never holds more than it; a tick adds exactly one token below capacity
    and changes nothing when the pool is full; [Wait] does not complete on an
    empty pool, takes exactly one token otherwise, and has no error result;
    and a caller parked on an empty pool is released by a tick. *)
Theorem C7_rate_limiter_pool (requestsPerMinute : Z) (rl : RateLimiter)
    (Hnew : NewRateLimiter requestsPerMinute = Some rl) :
  (Z.of_nat (capacity rl) = requestsPerMinute /\ tokens rl = capacity rl)
  /\ forall (evs : list limiter_event) (rl' : RateLimiter),
       limiter_run evs rl = Some rl' ->
       capacity rl' = capacity rl
       /\ (tokens rl' <= capacity rl')%nat
       /\ ((tokens rl' < capacity rl')%nat ->
           refill rl' = mkRateLimiter (S (tokens rl')) (capacity rl') (refillRate rl'))
       /\ (tokens rl' = capacity rl' -> refill rl' = rl')
       /\ (tokens (refill rl') <= capacity rl)%nat
       /\ (tokens rl' = 0%nat -> Wait rl' = None)
       /\ (forall t, tokens rl' = S t ->
           Wait rl' = Some (mkRateLimiter t (capacity rl') (refillRate rl')))
       /\ (exists rl'', await rl' = Some rl'').
Proof.
  destruct (NewRateLimiter_Some _ _ Hnew) as (Hpos & Hrate & ->). simpl.
  split; [split; [lia|done]|].
  intros evs rl' Hrun.
  destruct (limiter_run_inv _ _ _ Hrun) as [Hc Ht]; [simpl; lia|]. simpl in Hc.
  split; [done|]. split; [done|].
  destruct rl' as [t c r]. simpl in *. subst c.
  unfold refill, send, Wait. simpl.
  repeat split.
  - intros Hlt. by destruct (Nat.ltb_spec t (Z.to_nat requestsPerMinute)); [|lia].
  - intros ->. by rewrite Nat.ltb_irrefl.
  - destruct (Nat.ltb_spec t (Z.to_nat requestsPerMinute)); simpl; lia.
  - by intros ->.
  - by intros t' ->.
  - apply await_Some. simpl. lia.
Qed.

(** The limiter of the default configuration: 60 requests per minute. *)
Lemma C7_rate_limiter_pool_witness :
  NewRateLimiter 60 = Some (mkRateLimiter 60 60 second)
  /\ Z.of_nat (capacity (mkRateLimiter 60 60 second)) = 60.
Proof.
  split; [reflexivity|].
  apply (C7_rate_limiter_pool 60 (mkRateLimiter 60 60 second)). reflexivity.
Defined.

End LimiterFacts.

(** ** The retry delay *)
Section DelayFacts.

Lemma delay_fits (cfg : Config) (k : Z) :
  0 <= k -> 0 <= InitialRetryDelay cfg -> InitialRetryDelay cfg * 2^k < 2^63 ->
  mul (InitialRetryDelay cfg) (shl1 k) = InitialRetryDelay cfg * 2^k.
Proof.
  intros Hk Hi Hfit. unfold mul.
  assert (0 < 2^k) by (apply Z.pow_pos_nonneg; lia).
  destruct (Z.eq_dec (InitialRetryDelay cfg) 0) as [->|Hnz].
  { by rewrite !Z.mul_0_l. }
  assert (k < 63).
  { destruct (Z.lt_ge_cases k 63); [done|].
    assert (2^63 <= 2^k) by (apply Z.pow_le_mono_r; lia). nia. }
  rewrite shl1_small by lia. apply wrap64_in_int. unfold in_int. nia.
Qed.

Lemma delay_enabled (cfg : Config) (k : Z) :
  ExponentialBackoff cfg = true ->
  0 <= k -> 0 <= InitialRetryDelay cfg -> InitialRetryDelay cfg * 2^k < 2^63 ->
  calculateRetryDelay cfg k = Z.min (InitialRetryDelay cfg * 2^k) (MaxRetryDelay cfg).
Proof.
  intros Hb Hk Hi Hfit. unfold calculateRetryDelay. rewrite Hb. simpl.
  rewrite delay_fits by done.
  destruct (Z.ltb_spec (MaxRetryDelay cfg) (InitialRetryDelay cfg * 2^k)); lia.
Qed.

(** C4, as stated, fails: the product [initialDelay * 2^k] is computed in 64
    bits, so with 2 s and 10 s the delay for attempt 33 is negative, below
    the delay for attempt 32; and [delay(0)] is the maximum delay, not the
    initial one, when the initial delay is the larger. *)
Lemma C4_counterexample :
  calculateRetryDelay backoff_2s_10s 33
    <> Z.min (InitialRetryDelay backoff_2s_10s * 2^33) (MaxRetryDelay backoff_2s_10s)
  /\ calculateRetryDelay backoff_2s_10s 33 < calculateRetryDelay backoff_2s_10s 32
  /\ calculateRetryDelay backoff_15s_10s 0 <> InitialRetryDelay backoff_15s_10s.
Proof. vm_compute. repeat split; try discriminate. Qed.

(** C4, amended.  For every attempt number [k >= 0]: with exponential backoff
    disabled the delay is the initial delay; with it enabled, a non-negative
    initial delay and [initialDelay * 2^k] below [2^63], the delay is
    [min (initialDelay * 2^k) maxDelay], [delay(0)] is
    [min initialDelay maxDelay] (the initial delay when that does not exceed
    the maximum), and the delay does not decrease from any earlier attempt
    to [k]. *)
Theorem C4_retry_delay (cfg : Config) (k : Z) (Hk : 0 <= k) :
  (ExponentialBackoff cfg = false -> calculateRetryDelay cfg k = InitialRetryDelay cfg)
  /\ (ExponentialBackoff cfg = true ->
      0 <= InitialRetryDelay cfg -> InitialRetryDelay cfg * 2^k < 2^63 ->
      calculateRetryDelay cfg k
        = Z.min (InitialRetryDelay cfg * 2^k) (MaxRetryDelay cfg)
      /\ calculateRetryDelay cfg 0
        = Z.min (InitialRetryDelay cfg) (MaxRetryDelay cfg)
      /\ (InitialRetryDelay cfg <= MaxRetryDelay cfg ->
          calculateRetryDelay cfg 0 = InitialRetryDelay cfg)
      /\ forall j, 0 <= j <= k ->
           calculateRetryDelay cfg j <= calculateRetryDelay cfg k).
Proof.
  split.
  - intros Hb. unfold calculateRetryDelay. by rewrite Hb.
  - intros Hb Hi Hfit.
    assert (Hmono : forall j, 0 <= j <= k ->
              InitialRetryDelay cfg * 2^j <= InitialRetryDelay cfg * 2^k).
    { intros j Hj. apply Z.mul_le_mono_nonneg_l; [done|].
      apply Z.pow_le_mono_r; lia. }
    assert (H0 : calculateRetryDelay cfg 0
                 = Z.min (InitialRetryDelay cfg) (MaxRetryDelay cfg)).
    { rewrite delay_enabled; try done.
      - by rewrite Z.pow_0_r, Z.mul_1_r.
      - specialize (Hmono 0). rewrite Z.pow_0_r, Z.mul_1_r in *. lia. }
    repeat split.
    + by apply delay_enabled.
    + exact H0.
    + intros Hle. rewrite H0. lia.
    + intros j Hj. specialize (Hmono j Hj).
      rewrite !delay_enabled; try done; try lia.
Qed.

(** 2 s initial, 10 s maximum: the delay before the third retry is 8 s. *)
Lemma C4_retry_delay_witness :
  0 <= 2 /\ calculateRetryDelay backoff_2s_10s 2 = 8 * second.
Proof.
  split; [lia|].
  destruct (C4_retry_delay backoff_2s_10s 2 ltac:(lia)) as [_ H].
  destruct H as [H _]; [reflexivity | vm_compute; discriminate | vm_compute; reflexivity |].
  exact H.
Defined.

End DelayFacts.

(** ** The transport call *)
Section TransportFacts.

Lemma callOpenAI_Done (x : exchange) (prompt : string) (ap : AIProcessor) :
  exists systemMsg,
    callOpenAI x prompt ap
    = Done (classify x)
           (mkAIProcessor (config ap) (rateLimiter ap) (tokenTracker ap)
                          (journal ap ++ [FxCall systemMsg prompt])).
Proof. unfold callOpenAI, bind, log, ret. eauto. Qed.

Lemma classify_error_iff (x : exchange) : (classify x).2 <> None <-> code_failure x.
Proof.
  destruct x as [c|c|c|status [c|raw c|raw r]]; simpl; try (split; [done|discriminate]).
  destruct (resp_Error r) as [e|] eqn:He; simpl.
  { split; [by left|discriminate]. }
  destruct (Z.eqb_spec status StatusOK) as [->|Hne]; simpl.
  - destruct (Choices r) as [|c cs] eqn:Hc; simpl.
    + split; [by right; right|discriminate].
    + split; [done|]. intros [?|[?|?]]; done.
  - split; [by right; left|discriminate].
Qed.

(** C5, as stated, fails: a well-formed body answered with status 201 is in
    none of the listed failure cases (201 is a 2xx status), yet the call
    returns an error. *)
Lemma C5_counterexample :
  ~ spec_failure created_201
  /\ exists ap', callOpenAI created_201 "prompt" ap_r2
                 = Done (""%string, Usage_zero, Some (ErrStatus 201 "{}")) ap'.
Proof.
  split.
  - simpl. unfold status_2xx. intros [H|[H|H]]; [by apply H | apply H; lia | done].
  - eexists. reflexivity.
Qed.

(** C5, amended.  [callOpenAI] always returns, and returns an error if and
    only if the request cannot be built or sent, the response body cannot be
    read or parsed, the parsed body carries an error object, the status is
    not 200, or the choices array is empty; otherwise it returns
    [choices[0].message.content] as it is, with the reported usage. *)
Theorem C5_callOpenAI_result (x : exchange) (prompt : string) (ap : AIProcessor) :
  exists output usage err ap',
    callOpenAI x prompt ap = Done (output, usage, err) ap'
    /\ (err <> None <-> code_failure x)
    /\ (err = None ->
        exists status raw apiResp c cs,
          x = Response status (Decoded raw apiResp)
          /\ Choices apiResp = c :: cs
          /\ output = Content (choice_Message c)
          /\ usage = resp_Usage apiResp).
Proof.
  destruct (callOpenAI_Done x prompt ap) as [sm Hcall].
  destruct (classify x) as [[output usage] err] eqn:Hx.
  exists output, usage, err. eexists. split; [exact Hcall|]. split.
  - pose proof (classify_error_iff x) as H. by rewrite Hx in H.
  - intros ->. destruct x as [c|c|c|status [c|raw c|raw r]]; simpl in Hx; try done.
    destruct (resp_Error r); [done|].
    destruct (status =? StatusOK); simpl in Hx; [|done].
    destruct (Choices r) as [|c cs] eqn:Hc; [done|].
    injection Hx as <- <-. by exists status, raw, r, c, cs.
Qed.

End TransportFacts.

(** ** The per-item retry loop *)
Section ExecutorFacts.

Context {T : Type}.
Implicit Types (env : ItemEnv) (item : T) (promptTemplate : T -> string).
Implicit Types (ap : AIProcessor) (r : ProcessResult T).

(** One iteration of the loop of [processItemWithRetry], spelled out. *)
Lemma retry_loop_cons env index item promptTemplate attempt rest lastError retryCount ap :
  retry_loop env index item promptTemplate (attempt :: rest) lastError retryCount ap
  = match ctx_before env attempt with
    | Some ce =>
        Done (mkProcessResult index (Some item) "" false (Some (ErrContext ce))
                retryCount (since env attempt) Usage_zero) ap
    | None =>
        match await (rateLimiter ap) with
        | None => Blocks
        | Some rl =>
            let ap1 := with_limiter ap rl [FxAcquire; FxRender] in
            if String.eqb (promptTemplate item) ""
            then Done (mkProcessResult index (Some item) "" false (Some ErrEmptyPrompt)
                         0 (since env attempt) Usage_zero) ap1
            else
              let ap2 := with_limiter ap rl
                           [FxAcquire; FxRender; FxCall (system_of ap) (promptTemplate item)] in
              match classify (round_trip env attempt) with
              | (output, usage, None) =>
                  Done (mkProcessResult index (Some item) output true None
                          retryCount (since env attempt) usage) ap2
              | (_, _, Some e) =>
                  if attempt <? MaxRetries (config ap)
                  then match ctx_in_wait env attempt with
                       | Some ce =>
                           Done (mkProcessResult index (Some item) "" false
                                   (Some (ErrContext ce)) (add retryCount 1)
                                   (since env attempt) Usage_zero) ap2
                       | None =>
                           retry_loop env index item promptTemplate rest (Some e)
                             (add retryCount 1)
                             (with_limiter ap rl
                                [FxAcquire; FxRender;
                                 FxCall (system_of ap) (promptTemplate item);
                                 FxSleep (calculateRetryDelay (config ap) attempt)])
                       end
                  else retry_loop env index item promptTemplate rest (Some e)
                         (add retryCount 1) ap2
              end
        end
    end.
Proof.
  simpl. destruct (ctx_before env attempt); [done|].
  unfold bind, rateLimiterWait. destruct (await (rateLimiter ap)) as [rl|]; [|done].
  unfold log, with_limiter, system_of. simpl.
  destruct (String.eqb (promptTemplate item) "").
  { unfold ret. by rewrite <- !app_assoc. }
  unfold callOpenAI, bind, log, ret. simpl.
  destruct (classify (round_trip env attempt)) as [[output usage] [e|]];
    rewrite <- !app_assoc; simpl; [|done].
  destruct (attempt <? MaxRetries (config ap)); [|done].
  destruct (ctx_in_wait env attempt); [done|].
  unfold sleep, log. simpl. by rewrite <- !app_assoc.
Qed.

Lemma await_capacity (rl rl' : RateLimiter) :
  await rl = Some rl' -> capacity rl' = capacity rl.
Proof.
  destruct rl as [t c rr]. unfold await, Wait, refill, send. simpl.
  destruct t as [|t]; simpl.
  - destruct (0 <? c)%nat; simpl; [|done]. by intros [= <-].
  - by intros [= <-].
Qed.

Lemma retry_loop_frame env index item promptTemplate attempts :
  forall lastError retryCount ap r ap',
    retry_loop env index item promptTemplate attempts lastError retryCount ap = Done r ap' ->
    frame ap ap' /\ Index r = index /\ Input r = Some item.
Proof.
  induction attempts as [|attempt rest IH]; intros lastError retryCount ap r ap'.
  - simpl. destruct lastError; [|done]. unfold ret. by intros [= <- <-].
  - rewrite retry_loop_cons.
    destruct (ctx_before env attempt); [by intros [= <- <-]|].
    destruct (await (rateLimiter ap)) as [rl|] eqn:Hrl; [|done].
    pose proof (await_capacity _ _ Hrl) as Hcap. cbv zeta.
    destruct (String.eqb (promptTemplate item) ""); [by intros [= <- <-]|].
    destruct (classify (round_trip env attempt)) as [[output usage] [e|]];
      [|by intros [= <- <-]].
    destruct (attempt <? MaxRetries (config ap)).
    + destruct (ctx_in_wait env attempt); [by intros [= <- <-]|].
      intros H. apply IH in H. unfold frame in *. simpl in H.
      destruct H as ((-> & -> & ->) & ? & ?). done.
    + intros H. apply IH in H. unfold frame in *. simpl in H.
      destruct H as ((-> & -> & ->) & ? & ?). done.
Qed.

Lemma retry_loop_returns env index item promptTemplate attempts :
  forall lastError retryCount ap,
    (0 < capacity (rateLimiter ap))%nat ->
    (attempts = [] -> lastError <> None) ->
    exists r ap',
      retry_loop env index item promptTemplate attempts lastError retryCount ap = Done r ap'.
Proof.
  induction attempts as [|attempt rest IH]; intros lastError retryCount ap Hcap Hlast.
  - simpl. destruct lastError; [|by destruct Hlast]. unfold ret. eauto.
  - rewrite retry_loop_cons.
    destruct (ctx_before env attempt); [eauto|].
    destruct (await_Some _ Hcap) as [rl Hrl]. rewrite Hrl. cbv zeta.
    pose proof (await_capacity _ _ Hrl) as Hc.
    destruct (String.eqb (promptTemplate item) ""); [eauto|].
    destruct (classify (round_trip env attempt)) as [[output usage] [e|]]; [|eauto].
    destruct (attempt <? MaxRetries (config ap)).
    + destruct (ctx_in_wait env attempt); [eauto|].
      apply IH; [simpl; lia|done].
    + apply IH; [simpl; lia|done].
Qed.

Lemma attempts_from_S (lo : Z) (n : nat) :
  attempts_from lo (S n) = lo :: attempts_from (lo + 1) n.
Proof.
  unfold attempts_from. simpl. f_equal; [lia|].
  rewrite <- seq_shift, map_map. apply map_ext. intros k. lia.
Qed.

Lemma attempts_nonempty (maxRetries : Z) :
  0 <= maxRetries ->
  attempts_from 0 (Z.to_nat (maxRetries + 1))
  = 0 :: attempts_from 1 (Z.to_nat maxRetries).
Proof.
  intros H. replace (Z.to_nat (maxRetries + 1)) with (S (Z.to_nat maxRetries)) by lia.
  by rewrite attempts_from_S.
Qed.

Lemma processItemWithRetry_returns env index item promptTemplate ap :
  0 <= MaxRetries (config ap) < 2^63 - 1 ->
  (0 < capacity (rateLimiter ap))%nat ->
  exists r ap', processItemWithRetry env index item promptTemplate ap = Done r ap'.
Proof.
  intros Hr Hcap. unfold processItemWithRetry.
  apply retry_loop_returns; [done|]. by rewrite attempts_nonempty by lia.
Qed.

(** When every attempt fails and nothing is cancelled, the loop runs through
    all the attempts it is given and counts one retry per failure. *)
Lemma retry_loop_exhausts env index item promptTemplate :
  (forall k, ctx_before env k = None) ->
  (forall k, ctx_in_wait env k = None) ->
  (forall k, (classify (round_trip env k)).2 <> None) ->
  promptTemplate item <> ""%string ->
  forall (n : nat) lo lastError retryCount ap,
    (0 < capacity (rateLimiter ap))%nat ->
    (n = 0%nat -> lastError <> None) ->
    0 <= retryCount -> retryCount + Z.of_nat n < 2^63 ->
    exists r ap',
      retry_loop env index item promptTemplate (attempts_from lo n)
                 lastError retryCount ap = Done r ap'
      /\ Success r = false
      /\ Retries r = retryCount + Z.of_nat n
      /\ Error r = match n with
                   | O => lastError
                   | S m => (classify (round_trip env (lo + Z.of_nat m))).2
                   end.
Proof.
  intros Hctx Hwait Hfail Hprompt.
  induction n as [|n IH]; intros lo lastError retryCount ap Hcap Hlast Hrc Hfit.
  - simpl. destruct lastError as [e|]; [|by destruct Hlast].
    unfold ret. do 2 eexists. split; [done|]. simpl. repeat split. lia.
  - rewrite attempts_from_S, retry_loop_cons, Hctx.
    destruct (await_Some _ Hcap) as [rl Hrl]. rewrite Hrl. cbv zeta.
    pose proof (await_capacity _ _ Hrl) as Hc.
    destruct (String.eqb_spec (promptTemplate item) ""); [done|].
    pose proof (Hfail lo) as Hlo.
    destruct (classify (round_trip env lo)) as [[output usage] [e|]] eqn:Hx; [|done].
    rewrite Hwait.
    assert (Hadd : add retryCount 1 = retryCount + 1).
    { apply wrap64_in_int. unfold in_int. lia. }
    rewrite Hadd.
    assert (Hlast' : match n with
                     | O => Some e
                     | S m => (classify (round_trip env (lo + 1 + Z.of_nat m))).2
                     end
                     = (classify (round_trip env (lo + Z.of_nat n))).2).
    { destruct n as [|m].
      - simpl. rewrite Z.add_0_r, Hx. done.
      - do 3 f_equal. lia. }
    destruct (lo <? MaxRetries (config ap)).
    + edestruct (IH (lo + 1) (Some e) (retryCount + 1)) as (r & ap' & Hrun & Hs & Hr & He);
        [| | | |rewrite Hrun]; [simpl; lia|done|lia|lia|].
      exists r, ap'. repeat split; [done|lia|]. by rewrite He.
    + edestruct (IH (lo + 1) (Some e) (retryCount + 1)) as (r & ap' & Hrun & Hs & Hr & He);
        [| | | |rewrite Hrun]; [simpl; lia|done|lia|lia|].
      exists r, ap'. repeat split; [done|lia|]. by rewrite He.
Qed.

(** An item whose every transport attempt fails is reported with
    [MaxRetries + 1] retries, one more than the retries that were made. *)
Lemma exhaustion_reports_one_more env index item promptTemplate ap :
  0 <= MaxRetries (config ap) < 2^62 ->
  (0 < capacity (rateLimiter ap))%nat ->
  (forall k, ctx_before env k = None) ->
  (forall k, ctx_in_wait env k = None) ->
  (forall k, (classify (round_trip env k)).2 <> None) ->
  promptTemplate item <> ""%string ->
  exists r ap',
    processItemWithRetry env index item promptTemplate ap = Done r ap'
    /\ Success r = false
    /\ Retries r = MaxRetries (config ap) + 1
    /\ Error r = (classify (round_trip env (MaxRetries (config ap)))).2.
Proof.
  intros Hr Hcap Hctx Hwait Hfail Hprompt. unfold processItemWithRetry.
  assert (2^62 < 2^63) by (vm_compute; reflexivity).
  destruct (retry_loop_exhausts env index item promptTemplate Hctx Hwait Hfail Hprompt
              (Z.to_nat (MaxRetries (config ap) + 1)) 0 None 0 ap)
    as (r & ap' & Hrun & Hs & Hrt & He); [done|lia|lia|lia|].
  exists r, ap'. split; [done|]. split; [done|]. split; [lia|].
  rewrite He. replace (Z.to_nat (MaxRetries (config ap) + 1))
    with (S (Z.to_nat (MaxRetries (config ap)))) by lia.
  do 3 f_equal. lia.
Qed.

Lemma processItemWithRetry_first env index item promptTemplate ap :
  0 <= MaxRetries (config ap) ->
  processItemWithRetry env index item promptTemplate ap
  = retry_loop env index item promptTemplate
      (0 :: attempts_from 1 (Z.to_nat (MaxRetries (config ap)))) None 0 ap.
Proof. intros Hr. unfold processItemWithRetry. by rewrite attempts_nonempty. Qed.

(** C9. If the prompt template returns the empty string for an item, the
    item's outcome is a failure with [Retries = 0], reached on the first
    attempt with no wait and no transport call; this holds for
    [processItemWithRetry] and for the goroutine [ProcessBatch] runs for the
    item. *)
Theorem C9_empty_prompt_fails_at_once env index item promptTemplate ap
    (Hr : 0 <= MaxRetries (config ap))
    (Hcap : (0 < capacity (rateLimiter ap))%nat)
    (Hempty : promptTemplate item = ""%string) :
  immediate_failure ap (processItemWithRetry env index item promptTemplate ap)
  /\ immediate_failure ap (worker env index item promptTemplate ap).
Proof.
  assert (Hp : immediate_failure ap
                 (processItemWithRetry env index item promptTemplate ap)).
  { rewrite processItemWithRetry_first, retry_loop_cons by done.
    destruct (ctx_before env 0) as [ce|].
    - exists (mkProcessResult index (Some item) "" false (Some (ErrContext ce))
                0 (since env 0) Usage_zero), ap, [].
      simpl. rewrite app_nil_r. repeat split; done.
    - destruct (await_Some _ Hcap) as [rl ->]. cbv zeta. rewrite Hempty. simpl.
      do 2 eexists. exists [FxAcquire; FxRender]. simpl.
      repeat split; try done. constructor; [by left|]. constructor; [by right|]. constructor. }
  split; [exact Hp|]. unfold worker.
  destruct (ctx_at_entry env) as [ce|]; [|exact Hp].
  exists (mkProcessResult index (Some item) "" false (Some (ErrContext ce))
            0 0 Usage_zero), ap, [].
  unfold ret. simpl. rewrite app_nil_r. repeat split; done.
Qed.

(** C10. In the retry loop the rate-limiter token is taken before the prompt
    is rendered and validated: an item that is not cancelled and whose
    prompt is empty returns the empty-prompt failure after exactly one
    [Wait] followed by the render, with no transport call, and the pool is
    left one token short of what that [Wait] found. *)
Theorem C10_token_taken_before_validation env index item promptTemplate ap
    (Hr : 0 <= MaxRetries (config ap))
    (Hcap : (0 < capacity (rateLimiter ap))%nat)
    (Hctx : ctx_before env 0 = None)
    (Hempty : promptTemplate item = ""%string) :
  exists r ap',
    processItemWithRetry env index item promptTemplate ap = Done r ap'
    /\ Error r = Some ErrEmptyPrompt
    /\ journal ap' = journal ap ++ [FxAcquire; FxRender]
    /\ await (rateLimiter ap) = Some (rateLimiter ap')
    /\ (forall t, tokens (rateLimiter ap) = S t -> tokens (rateLimiter ap') = t)
    /\ (tokens (rateLimiter ap) = 0%nat -> tokens (rateLimiter ap') = 0%nat).
Proof.
  rewrite processItemWithRetry_first, retry_loop_cons, Hctx by done.
  destruct (await_Some _ Hcap) as [rl Hrl]. rewrite Hrl. cbv zeta.
  rewrite Hempty. simpl. do 2 eexists. split; [done|]. simpl.
  repeat split.
  - intros t Ht. destruct (rateLimiter ap) as [t0 c rr]. simpl in *. subst t0.
    unfold await, Wait in Hrl. simpl in Hrl. by injection Hrl as <-.
  - intros Ht. destruct (rateLimiter ap) as [t0 c rr]. simpl in *. subst t0.
    unfold await, Wait, refill, send in Hrl. simpl in Hrl.
    destruct (0 <? c)%nat; simpl in Hrl; [|done]. by injection Hrl as <-.
Qed.

(** Each attempt that remains adds at most one to the counter, and a
    success adds none. *)
Lemma retry_loop_bound env index item promptTemplate :
  forall (n : nat) lo lastError retryCount ap r ap',
    0 <= retryCount -> retryCount + Z.of_nat n < 2^63 ->
    retry_loop env index item promptTemplate (attempts_from lo n)
               lastError retryCount ap = Done r ap' ->
    0 <= Retries r <= retryCount + Z.of_nat n
    /\ (Success r = true -> Retries r < retryCount + Z.of_nat n).
Proof.
  induction n as [|n IH]; intros lo lastError retryCount ap r ap' Hrc Hfit.
  - simpl. destruct lastError; [|done]. unfold ret. intros [= <- <-]. simpl.
    split; [lia|done].
  - rewrite attempts_from_S, retry_loop_cons.
    destruct (ctx_before env lo); [intros [= <- <-]; simpl; split; [lia|done]|].
    destruct (await (rateLimiter ap)) as [rl|]; [|done]. cbv zeta.
    destruct (String.eqb (promptTemplate item) "");
      [intros [= <- <-]; simpl; split; [lia|done]|].
    destruct (classify (round_trip env lo)) as [[output usage] [e|]];
      [|intros [= <- <-]; simpl; split; lia].
    assert (Hadd : add retryCount 1 = retryCount + 1).
    { apply wrap64_in_int. unfold in_int. lia. }
    rewrite Hadd.
    destruct (lo <? MaxRetries (config ap)).
    + destruct (ctx_in_wait env lo); [intros [= <- <-]; simpl; split; [lia|done]|].
      intros H. apply IH in H; [|lia|lia]. destruct H as [H1 H2].
      split; [lia|]. intros Hs. specialize (H2 Hs). lia.
    + intros H. apply IH in H; [|lia|lia]. destruct H as [H1 H2].
      split; [lia|]. intros Hs. specialize (H2 Hs). lia.
Qed.

(** The [Retries] field of an outcome of [processItemWithRetry] lies between
    0 and [MaxRetries + 1], and is at most [MaxRetries] on a success. *)
Lemma retries_bound env index item promptTemplate ap r ap' :
  0 <= MaxRetries (config ap) < 2^62 ->
  processItemWithRetry env index item promptTemplate ap = Done r ap' ->
  0 <= Retries r <= MaxRetries (config ap) + 1
  /\ (Success r = true -> Retries r <= MaxRetries (config ap)).
Proof.
  intros Hr Hrun. unfold processItemWithRetry in Hrun.
  assert (2^62 < 2^63) by (vm_compute; reflexivity).
  apply retry_loop_bound in Hrun; [|lia|lia]. destruct Hrun as [H1 H2].
  split; [lia|]. intros Hs. specialize (H2 Hs). lia.
Qed.

(** Nothing in the retry loop writes to the usage tracker. *)
Lemma processItemWithRetry_frame env index item promptTemplate ap r ap' :
  processItemWithRetry env index item promptTemplate ap = Done r ap' ->
  frame ap ap' /\ Index r = index /\ Input r = Some item.
Proof. apply retry_loop_frame. Qed.

Lemma worker_frame env index item promptTemplate ap r ap' :
  worker env index item promptTemplate ap = Done r ap' ->
  frame ap ap' /\ Index r = index /\ Input r = Some item.
Proof.
  unfold worker. destruct (ctx_at_entry env).
  - unfold ret. by intros [= <- <-].
  - apply processItemWithRetry_frame.
Qed.

Lemma worker_returns env index item promptTemplate ap :
  0 <= MaxRetries (config ap) < 2^63 - 1 ->
  (0 < capacity (rateLimiter ap))%nat ->
  exists r ap', worker env index item promptTemplate ap = Done r ap'.
Proof.
  intros Hr Hcap. unfold worker. destruct (ctx_at_entry env).
  - unfold ret. eauto.
  - by apply processItemWithRetry_returns.
Qed.

End ExecutorFacts.

(** ** Evaluations of the retry loop *)

(** C2, evaluated where it fails.  With [MaxRetries = 2], one item, a
    non-empty prompt, no cancellation and every transport attempt failing,
    the outcome has [Success = false] and carries the last error, but its
    [Retries] field is 3, not 2: the counter is incremented after the last
    attempt too, which no retry follows. *)
Theorem C2_exhaustion_reports_three :
  MaxRetries (config ap_r2) = 2
  /\ exists r ap',
       processItemWithRetry env_down 0 "item"%string (fun _ => "prompt"%string) ap_r2
       = Done r ap'
       /\ Success r = false
       /\ Retries r = 3
       /\ Error r = Some (ErrRequest "connection refused").
Proof.
  split; [reflexivity|].
  do 2 eexists. split; [vm_compute; reflexivity|]. repeat split.
Qed.

(** A template that renders every item as the empty string. *)
Lemma C9_empty_prompt_fails_at_once_witness :
  immediate_failure ap_r2
    (worker env_ok 0 "item"%string (fun _ => ""%string) ap_r2).
Proof.
  refine (proj2 (C9_empty_prompt_fails_at_once env_ok 0 "item"%string
                   (fun _ => ""%string) ap_r2 _ _ _)).
  - vm_compute. discriminate.
  - simpl. lia.
  - reflexivity.
Defined.

(** The same item on a full pool of 60 tokens: 59 are left. *)
Lemma C10_token_taken_before_validation_witness :
  exists r ap',
    processItemWithRetry env_ok 0 "item"%string (fun _ => ""%string) ap_r2 = Done r ap'
    /\ Error r = Some ErrEmptyPrompt
    /\ journal ap' = journal ap_r2 ++ [FxAcquire; FxRender]
    /\ await (rateLimiter ap_r2) = Some (rateLimiter ap')
    /\ (forall t, tokens (rateLimiter ap_r2) = S t -> tokens (rateLimiter ap') = t)
    /\ (tokens (rateLimiter ap_r2) = 0%nat -> tokens (rateLimiter ap') = 0%nat).
Proof.
  refine (C10_token_taken_before_validation env_ok 0 "item"%string
            (fun _ => ""%string) ap_r2 _ _ _ _).
  - vm_compute. discriminate.
  - simpl. lia.
  - reflexivity.
  - reflexivity.
Defined.

(** ** The single-item path *)
Section SingleFacts.

Implicit Types (env : ItemEnv) (ap : AIProcessor).

(** The loop ends without error only when one of its calls succeeded (or no
    call was made), and then the usage of that call has been recorded under
    the week label. *)
Lemma single_loop_records env prompt systemMessage weekLabel attempts :
  forall response err ap response' ap',
    single_loop env prompt systemMessage weekLabel attempts response err ap
    = Done (response', None) ap' ->
    (attempts = [] /\ err = None /\ ap' = ap)
    \/ exists k usage,
         k ∈ attempts
         /\ classify (round_trip env k) = (response', usage, None)
         /\ tokenTracker ap'
            = token_tracker.RecordUsage weekLabel (PromptTokens usage)
                (CompletionTokens usage) (tokenTracker ap).
Proof.
  induction attempts as [|attempt rest IH]; intros response err ap response' ap'.
  - simpl. unfold ret. intros [= <- <- <-]. by left.
  - intros Hrun. right. simpl in Hrun. unfold bind in Hrun.
    set (ap1 := match (if 0 <? attempt
                       then sleep (calculateRetryDelay (config ap) attempt)
                       else ret tt) ap with
                | Done _ a => a | _ => ap end).
    assert (H1 : (if 0 <? attempt
                  then sleep (calculateRetryDelay (config ap) attempt)
                  else ret tt) ap = Done tt ap1
                 /\ tokenTracker ap1 = tokenTracker ap).
    { unfold ap1. destruct (0 <? attempt); simpl; done. }
    destruct H1 as [H1 Htt1]. rewrite H1 in Hrun.
    unfold callOpenAI, bind, log, ret in Hrun. simpl in Hrun.
    destruct (classify (round_trip env attempt)) as [[resp usage] [e|]] eqn:Hx.
    + apply IH in Hrun. destruct Hrun as [(_ & ? & _)|(k & u & Hk & Hc & Ht)]; [done|].
      exists k, u. split; [by right|]. split; [done|]. rewrite Ht. simpl.
      by rewrite Htt1.
    + unfold recordUsage in Hrun. simpl in Hrun. injection Hrun as <- <-.
      exists attempt, usage. split; [by left|]. split; [done|]. simpl.
      by rewrite Htt1.
Qed.

(** A response without error means one attempt succeeded, and its usage was
    recorded, once, under the week label. *)
Lemma ProcessSingleWithWeek_records env prompt systemMessage weekLabel ap response ap' :
  0 < MaxRetries (config ap) ->
  ProcessSingleWithWeek env prompt systemMessage weekLabel ap = Done (response, None) ap' ->
  exists k usage,
    0 <= k < MaxRetries (config ap)
    /\ classify (round_trip env k) = (response, usage, None)
    /\ tokenTracker ap'
       = token_tracker.RecordUsage weekLabel (PromptTokens usage)
           (CompletionTokens usage) (tokenTracker ap).
Proof.
  intros Hr. unfold ProcessSingleWithWeek, bind, rateLimiterWait.
  destruct (await (rateLimiter ap)) as [rl|]; [|done].
  unfold log. simpl.
  destruct (single_loop env prompt systemMessage weekLabel _ "" None _)
    as [[resp [e|]] ap1| |] eqn:Hloop; try done.
  unfold ret. intros [= <- <-].
  apply single_loop_records in Hloop.
  destruct Hloop as [(Hnil & _)|(k & usage & Hk & Hc & Ht)].
  - exfalso. unfold attempts_from in Hnil. apply map_eq_nil in Hnil.
    destruct (Z.to_nat (MaxRetries (config ap))) eqn:E; [lia|done].
  - exists k, usage. split; [|done].
    unfold attempts_from in Hk. apply list_elem_of_fmap in Hk.
    destruct Hk as (j & -> & Hj). apply elem_of_seq in Hj. lia.
Qed.

End SingleFacts.

(** ** The batch scheduler *)
Section SchedulerFacts.

Context {T : Type}.
Variable items : list T.
Variable promptTemplate : T -> string.
Variable ap0 : AIProcessor.

(** The batch size is a positive [int], and a slice has fewer than [2^62]
    elements. *)
Hypothesis Hbatch : 0 < BatchSize (config ap0) < 2^63.
Hypothesis Hlen : Z.of_nat (length items) < 2^62.

Local Abbreviation n := (Z.of_nat (length items)).
Local Abbreviation b := (BatchSize (config ap0)).

Lemma elem_of_without (i j : Z) (l : list Z) :
  j ∈ without i l <-> j ∈ l /\ j <> i.
Proof. unfold without. rewrite list_elem_of_filter. tauto. Qed.

Lemma exec_app (l1 l2 : list event) (s : run T) :
  exec items promptTemplate (l1 ++ l2) s
  = match exec items promptTemplate l1 s with
    | Some s' => exec items promptTemplate l2 s'
    | None => None
    end.
Proof.
  revert s. induction l1 as [|ev l1 IH]; intros s; simpl; [done|].
  destruct (step items promptTemplate ev s); [apply IH|done].
Qed.

Lemma finished_snoc (pre : list event) (ev : event) (i : Z) :
  finished pre i -> finished (pre ++ [ev]) i.
Proof. intros [env H]. exists env. apply elem_of_app. by left. Qed.

Lemma assigned_snoc (pre : list event) (ev : event) (s s' : run T) (i : Z) :
  assigned pre s i ->
  results s' !! Z.to_nat i = results s !! Z.to_nat i ->
  assigned (pre ++ [ev]) s' i.
Proof.
  intros [Hf (r & Hr & Hi)] Heq. split; [by apply finished_snoc|].
  exists r. by rewrite Heq.
Qed.

Lemma frame_refl (ap : AIProcessor) : frame ap ap.
Proof. by unfold frame. Qed.

Lemma frame_trans (ap1 ap2 ap3 : AIProcessor) :
  frame ap1 ap2 -> frame ap2 ap3 -> frame ap1 ap3.
Proof. unfold frame. intros (-> & -> & ->) (-> & -> & ->). done. Qed.

Lemma start_inv : sched_inv items ap0 [] (ProcessBatch_start items ap0).
Proof.
  unfold ProcessBatch_start.
  destruct (MaxConcurrent (config ap0) <? 0); [done|].
  destruct (BatchSize (config ap0) =? 0); [done|].
  unfold loop_head. simpl.
  destruct (Z.ltb_spec 0 n) as [Hpos|Hle]; unfold sched_inv; simpl.
  - unfold spawning_inv. simpl.
    assert (Hadd : add 0 b = b) by (apply wrap64_in_int; unfold in_int; lia).
    rewrite Hadd. split; [apply frame_refl|]. split; [by rewrite length_replicate|].
    split; [exists 0; lia|]. split; [done|].
    split; [destruct (Z.ltb_spec n b); lia|].
    split; [destruct (Z.ltb_spec n b); lia|].
    split.
    + intros i [H|H]; by apply not_elem_of_nil in H.
    + intros i Hi. lia.
  - unfold drained_inv. simpl. split; [apply frame_refl|].
    split; [by rewrite length_replicate|]. split; [done|]. split; [done|].
    intros i Hi. lia.
Qed.

Lemma item_at_Some (i : Z) : 0 <= i < n -> exists item, item_at items i = Some item.
Proof.
  intros Hi. unfold item_at. destruct (Z.ltb_spec i 0); [lia|].
  apply lookup_lt_is_Some. lia.
Qed.

Lemma step_go_inv (pre : list event) (s s' : run T) (i : Z) :
  at_ s = Spawning -> spawning_inv items ap0 pre s ->
  step items promptTemplate (EvGo i) s = Some s' ->
  sched_inv items ap0 (pre ++ [EvGo i]) s'.
Proof.
  intros Hat (Hfr & Hlen' & Hk & Hlt & He & Hi & Hmem & Hdone).
  unfold step. rewrite Hat.
  destruct (bool_decide (i = i_next s)) eqn:Hd; simpl; [|done].
  apply bool_decide_eq_true in Hd. subst i.
  destruct (Z.ltb_spec (i_next s) (batchEnd s)) as [Hlt'|]; [|done].
  destruct (item_at items (i_next s)); [|by intros [= <-]].
  intros [= <-]. unfold sched_inv, spawning_inv. simpl.
  assert (Hnn : 0 <= batchStart s) by (destruct Hk as (k & ? & ->); nia).
  assert (Hadd : add (i_next s) 1 = i_next s + 1).
  { apply wrap64_in_int. unfold in_int. lia. }
  rewrite Hadd. do 5 (split; [done|]). split; [lia|]. split.
  - intros i [H|H].
    + apply elem_of_app in H. destruct H as [H|H].
      * specialize (Hmem i (or_introl H)). lia.
      * apply list_elem_of_singleton in H. lia.
    + specialize (Hmem i (or_intror H)). lia.
  - intros i Hi' Hq Hh.
    assert (i <> i_next s).
    { intros ->. apply Hq, elem_of_app. right. by apply list_elem_of_singleton. }
    apply (assigned_snoc pre _ s); [|done].
    apply Hdone; [lia| |done]. intros H'. apply Hq, elem_of_app. by left.
Qed.

Lemma step_slot_inv (pre : list event) (s s' : run T) (i : Z) :
  at_ s = Spawning -> spawning_inv items ap0 pre s ->
  step items promptTemplate (EvSlot i) s = Some s' ->
  sched_inv items ap0 (pre ++ [EvSlot i]) s'.
Proof.
  intros Hat (Hfr & Hlen' & Hk & Hlt & He & Hi & Hmem & Hdone).
  unfold step. rewrite Hat.
  destruct (bool_decide (i ∈ queued s)) eqn:Hd; simpl; [|done].
  apply bool_decide_eq_true in Hd.
  destruct (_ <? _); [|done].
  intros [= <-]. unfold sched_inv, spawning_inv. simpl.
  do 6 (split; [done|]). split.
  - intros j [H|H].
    + apply elem_of_without in H. apply Hmem. left. tauto.
    + apply elem_of_app in H. destruct H as [H|H]; [apply Hmem; by right|].
      apply list_elem_of_singleton in H. subst j. apply Hmem. by left.
  - intros j Hj Hq Hh.
    assert (j <> i).
    { intros ->. apply Hh, elem_of_app. right. by apply list_elem_of_singleton. }
    apply (assigned_snoc pre _ s); [|done].
    apply Hdone; [done| |].
    + intros H'. apply Hq, elem_of_without. done.
    + intros H'. apply Hh, elem_of_app. by left.
Qed.

Lemma step_finish_inv (pre : list event) (s s' : run T) (i : Z) (env : ItemEnv) :
  at_ s = Spawning -> spawning_inv items ap0 pre s ->
  step items promptTemplate (EvFinish i env) s = Some s' ->
  sched_inv items ap0 (pre ++ [EvFinish i env]) s'.
Proof.
  intros Hat (Hfr & Hlen' & Hk & Hlt & He & Hi & Hmem & Hdone).
  unfold step. rewrite Hat.
  destruct (bool_decide (i ∈ holding s)) eqn:Hd; simpl; [|done].
  apply bool_decide_eq_true in Hd.
  pose proof (Hmem i (or_intror Hd)) as Hrange.
  assert (Hnn : 0 <= batchStart s) by (destruct Hk as (k & ? & ->); nia).
  destruct (item_at items i) as [item|]; [|done].
  destruct (worker env i item promptTemplate (proc s)) as [r ap'| |] eqn:Hw;
    [|by intros [= <-]|done].
  apply worker_frame in Hw. destruct Hw as (Hfr' & Hidx & _).
  intros [= <-]. unfold sched_inv, spawning_inv. simpl.
  split; [by eapply frame_trans|]. split; [by rewrite length_insert|].
  do 4 (split; [done|]). split.
  - intros j [H|H]; [apply Hmem; by left|].
    apply elem_of_without in H. apply Hmem. right. tauto.
  - intros j Hj Hq Hh. destruct (Z.eq_dec j i) as [->|Hne].
    + split.
      * exists env. apply elem_of_app. right. by apply list_elem_of_singleton.
      * exists r. split; [|done]. apply list_lookup_insert_eq. lia.
    + apply (assigned_snoc pre _ s).
      * apply Hdone; [done|done|]. intros H'. apply Hh, elem_of_without. done.
      * simpl. apply list_lookup_insert_ne. lia.
Qed.

Lemma step_barrier_inv (pre : list event) (s s' : run T) :
  at_ s = Spawning -> spawning_inv items ap0 pre s ->
  step items promptTemplate EvBarrier s = Some s' ->
  sched_inv items ap0 (pre ++ [EvBarrier]) s'.
Proof.
  intros Hat (Hfr & Hlen' & (k & Hk0 & Hk) & Hlt & He & Hi & Hmem & Hdone).
  unfold step. rewrite Hat.
  destruct (Z.ltb_spec (i_next s) (batchEnd s)) as [|Hge]; [done|]. simpl.
  destruct (bool_decide (queued s = [])) eqn:Hq; simpl; [|done].
  destruct (bool_decide (holding s = [])) eqn:Hh; simpl; [|done].
  apply bool_decide_eq_true in Hq, Hh.
  destruct Hfr as (Hcfg & Htt & Hcap). rewrite Hcfg.
  assert (Hadd : add (batchStart s) b = batchStart s + b).
  { apply wrap64_in_int. unfold in_int.
    destruct (Z.eq_dec k 0) as [->|]; [lia|]. nia. }
  rewrite Hadd. intros [= <-]. unfold loop_head.
  assert (Hall : forall i, 0 <= i < i_next s -> assigned (pre ++ [EvBarrier]) s i).
  { intros i Hi'. apply (assigned_snoc pre _ s); [|done].
    apply Hdone; [done| |]; [rewrite Hq|rewrite Hh]; apply not_elem_of_nil. }
  destruct (Z.ltb_spec (batchStart s + b) n) as [Hmore|Hlast];
    unfold sched_inv; simpl.
  - unfold spawning_inv. simpl. rewrite Hcfg.
    assert (Hadd' : add (batchStart s + b) b = batchStart s + b + b).
    { apply wrap64_in_int. unfold in_int. nia. }
    rewrite Hadd'. split; [done|]. split; [done|].
    split; [exists (k + 1); lia|]. split; [done|].
    split; [destruct (Z.ltb_spec n (batchStart s + b + b)); lia|].
    split; [destruct (Z.ltb_spec n (batchStart s + b + b)); lia|].
    split.
    + rewrite Hq, Hh. intros i [H|H]; by apply not_elem_of_nil in H.
    + intros i Hi' _ _. apply Hall. lia.
  - unfold drained_inv. simpl. do 4 (split; [done|]).
    intros i Hi'. apply Hall. lia.
Qed.

(** The invariant is kept by every step. *)
Lemma step_inv (pre : list event) (ev : event) (s s' : run T) :
  sched_inv items ap0 pre s ->
  step items promptTemplate ev s = Some s' ->
  sched_inv items ap0 (pre ++ [ev]) s'.
Proof.
  intros Hinv Hstep. unfold sched_inv in Hinv.
  destruct (at_ s) eqn:Hat.
  - destruct ev.
    + by eapply step_go_inv.
    + by eapply step_slot_inv.
    + by eapply step_finish_inv.
    + by eapply step_barrier_inv.
    + unfold step in Hstep. by rewrite Hat in Hstep.
  - unfold step in Hstep. rewrite Hat in Hstep.
    destruct ev; try done.
    destruct (n =? 0); injection Hstep as <-; [done|].
    unfold sched_inv. simpl.
    destruct Hinv as (? & ? & ? & ? & Hall). unfold drained_inv. simpl.
    do 4 (split; [done|]). intros i Hi.
    apply (assigned_snoc pre _ s); [by apply Hall|done].
  - unfold step in Hstep. by rewrite Hat in Hstep.
  - unfold step in Hstep. by rewrite Hat in Hstep.
Qed.

Lemma exec_inv (sched pre : list event) (s s' : run T) :
  sched_inv items ap0 pre s ->
  exec items promptTemplate sched s = Some s' ->
  sched_inv items ap0 (pre ++ sched) s'.
Proof.
  revert pre s. induction sched as [|ev sched IH]; intros pre s Hinv; simpl.
  - intros [= <-]. by rewrite app_nil_r.
  - destruct (step items promptTemplate ev s) as [s1|] eqn:Hstep; [|done].
    intros Hrun. replace (pre ++ ev :: sched) with ((pre ++ [ev]) ++ sched)
      by (by rewrite <- app_assoc).
    apply (IH _ s1); [by eapply step_inv|done].
Qed.

(** Every state [ProcessBatch] reaches satisfies the invariant. *)
Lemma ProcessBatch_inv (sched : list event) (s : run T) :
  ProcessBatch items promptTemplate ap0 sched = Some s ->
  sched_inv items ap0 sched s.
Proof. intros H. apply (exec_inv sched [] _ s start_inv H). Qed.

Lemma batch_of_index (k j : Z) :
  0 <= k -> k * b <= j < k * b + b -> j / b = k.
Proof.
  intros Hk Hj. symmetry. apply (Z.div_unique j b k (j - k * b)); lia.
Qed.

Lemma earlier_batch (k i : Z) : 0 <= i -> i / b < k -> i < k * b.
Proof.
  intros Hi Hlt. pose proof (Z.div_mod i b ltac:(lia)) as Hdm.
  pose proof (Z.mod_pos_bound i b ltac:(lia)) as Hm. nia.
Qed.

(** C6. The input is processed in consecutive batches of [BatchSize] items,
    batch [k] being the indices from [k * BatchSize] up to the next multiple
    (or the end of the input), and no goroutine of an item is started, takes
    its slot or finishes before every item of every earlier batch has
    finished and been assigned its outcome in [results]: in any execution,
    at any event of item [j], main is in the batch of [j] and the events
    before it contain the finish of every item of an earlier batch. *)
Theorem C6_batch_barrier (pre post : list event) (ev : event) (j : Z) (s : run T)
    (Hrun : ProcessBatch items promptTemplate ap0 (pre ++ ev :: post) = Some s)
    (Hev : concerns ev j) :
  0 <= j < n
  /\ exists s1,
       ProcessBatch items promptTemplate ap0 pre = Some s1
       /\ batchStart s1 = b * (j / b)
       /\ batchEnd s1 = Z.min (b * (j / b) + b) n
       /\ forall i, 0 <= i < n -> i / b < j / b -> assigned pre s1 i.
Proof.
  unfold ProcessBatch in *. rewrite exec_app in Hrun.
  destruct (exec items promptTemplate pre (ProcessBatch_start items ap0))
    as [s1|] eqn:Hpre; [|done].
  pose proof (ProcessBatch_inv pre s1 Hpre) as Hinv.
  simpl in Hrun.
  destruct (step items promptTemplate ev s1) as [s2|] eqn:Hstep; [|done].
  assert (Hat : at_ s1 = Spawning).
  { unfold step in Hstep. destruct (at_ s1); try done.
    destruct Hev as [->|[->|[env ->]]]; done. }
  unfold sched_inv in Hinv. rewrite Hat in Hinv.
  destruct Hinv as (Hfr & Hlen' & (k & Hk0 & Hk) & Hlt & He & Hi & Hmem & Hdone).
  assert (Hj : batchStart s1 <= j < batchEnd s1).
  { unfold step in Hstep. rewrite Hat in Hstep.
    destruct Hev as [->|[->|[env ->]]].
    - destruct (bool_decide (j = i_next s1)) eqn:Hd; simpl in Hstep; [|done].
      apply bool_decide_eq_true in Hd.
      destruct (Z.ltb_spec (i_next s1) (batchEnd s1)); [lia|done].
    - destruct (bool_decide (j ∈ queued s1)) eqn:Hd; simpl in Hstep; [|done].
      apply bool_decide_eq_true in Hd. specialize (Hmem j (or_introl Hd)). lia.
    - destruct (bool_decide (j ∈ holding s1)) eqn:Hd; simpl in Hstep; [|done].
      apply bool_decide_eq_true in Hd. specialize (Hmem j (or_intror Hd)). lia. }
  assert (Hjk : j / b = k) by (apply batch_of_index; lia).
  split; [nia|]. exists s1. split; [done|]. rewrite Hjk.
  split; [lia|]. split; [lia|].
  intros i Hi' Hearlier.
  pose proof (earlier_batch k i ltac:(lia) Hearlier) as Hlow.
  apply Hdone; [lia| |].
  - intros H. specialize (Hmem i (or_introl H)). lia.
  - intros H. specialize (Hmem i (or_intror H)). lia.
Qed.


(** *** The call can always run to its return *)

Variable envs : Z -> ItemEnv.
Hypothesis Hconc : 0 < MaxConcurrent (config ap0).
Hypothesis Hretries : 0 <= MaxRetries (config ap0) < 2^63 - 1.
Hypothesis Hcap : (0 < capacity (rateLimiter ap0))%nat.

Lemma length_without_head (i : Z) (l : list Z) :
  (length (without i (i :: l)) <= length l)%nat.
Proof.
  unfold without. rewrite filter_cons_False by (intros H; by apply H).
  apply length_filter.
Qed.

Lemma progress_step (pre : list event) (s : run T) :
  at_ s = Spawning -> spawning_inv items ap0 pre s ->
  exists ev s',
    step items promptTemplate ev s = Some s'
    /\ ((at_ s' = Spawning /\ remaining items s' < remaining items s)
        \/ at_ s' = Summarising).
Proof.
  intros Hat (Hfr & Hlen' & (k & Hk0 & Hk) & Hlt & He & Hi & Hmem & Hdone).
  assert (Hnn : 0 <= batchStart s) by nia.
  destruct Hfr as (Hcfg & Htt & Hcp).
  destruct (holding s) as [|h hl] eqn:Hh.
  - destruct (queued s) as [|q ql] eqn:Hq.
    + destruct (Z.ltb_spec (i_next s) (batchEnd s)) as [Hmore|Hfull].
      * (* start the next goroutine of the batch *)
        destruct (item_at_Some (i_next s)) as [item Hitem]; [lia|].
        exists (EvGo (i_next s)). eexists. split.
        { unfold step. rewrite Hat, Hitem.
          rewrite bool_decide_eq_true_2 by done.
          destruct (Z.ltb_spec (i_next s) (batchEnd s)); [|lia]. simpl. done. }
        left. split; [done|]. unfold remaining. simpl.
        assert (Hadd : add (i_next s) 1 = i_next s + 1).
        { apply wrap64_in_int. unfold in_int. lia. }
        rewrite Hadd, Hq, Hh, length_app. simpl. lia.
      * (* the batch is complete: pass the barrier *)
        exists EvBarrier. eexists. split.
        { unfold step. rewrite Hat, Hq, Hh.
          destruct (Z.ltb_spec (i_next s) (batchEnd s)); [lia|]. simpl. done. }
        rewrite Hcfg.
        assert (Hadd : add (batchStart s) b = batchStart s + b).
        { apply wrap64_in_int. unfold in_int.
          destruct (Z.eq_dec k 0) as [->|]; [lia|]. nia. }
        rewrite Hadd. unfold loop_head.
        destruct (Z.ltb_spec (batchStart s + b) n); simpl; [|by right].
        left. split; [done|]. unfold remaining. simpl. rewrite Hq, Hh. simpl. lia.
    + (* a waiting goroutine takes a slot *)
      exists (EvSlot q). eexists. split.
      { unfold step. rewrite Hat, Hq, Hh, Hcfg.
        rewrite bool_decide_eq_true_2 by (by left). simpl.
        change (Z.of_nat 0) with 0.
        destruct (Z.ltb_spec 0 (MaxConcurrent (config ap0))); [|lia]. done. }
      left. split; [done|]. unfold remaining. simpl. rewrite Hq, Hh. simpl.
      pose proof (length_without_head q ql). lia.
  - (* a goroutine holding a slot runs to its end *)
    assert (Hrange : batchStart s <= h < i_next s).
    { apply Hmem. right. by left. }
    destruct (item_at_Some h) as [item Hitem]; [lia|].
    destruct (worker_returns (envs h) h item promptTemplate (proc s))
      as (r & ap' & Hw); [by rewrite Hcfg|by rewrite Hcp|].
    exists (EvFinish h (envs h)). eexists. split.
    { unfold step. rewrite Hat, Hh, Hitem, Hw.
      rewrite bool_decide_eq_true_2 by (by left). done. }
    left. split; [done|]. unfold remaining. simpl. rewrite Hh. simpl.
    pose proof (length_without_head h hl). lia.
Qed.

Lemma can_return_from (m : nat) :
  forall (pre : list event) (s : run T),
    at_ s = Spawning -> spawning_inv items ap0 pre s ->
    remaining items s <= Z.of_nat m ->
    exists sched s',
      exec items promptTemplate sched s = Some s' /\ at_ s' = Returned.
Proof.
  induction m as [|m IH]; intros pre s Hat Hinv Hrem.
  - exfalso. destruct Hinv as (_ & _ & _ & Hlt & He & Hi & _).
    unfold remaining in Hrem. lia.
  - destruct (progress_step pre s Hat Hinv) as (ev & s' & Hstep & Hnext).
    pose proof (step_inv pre ev s s') as Hinv'. unfold sched_inv in Hinv' at 1.
    rewrite Hat in Hinv'. specialize (Hinv' Hinv Hstep). unfold sched_inv in Hinv'.
    destruct Hnext as [[Hat' Hless]|Hat'].
    + rewrite Hat' in Hinv'.
      destruct (IH (pre ++ [ev]) s' Hat' Hinv') as (sched & s'' & Hrun & Hret); [lia|].
      exists (ev :: sched), s''. simpl. by rewrite Hstep.
    + exists [ev; EvSummary]. eexists. simpl. rewrite Hstep.
      unfold step. rewrite Hat'.
      destruct Hinv as (_ & _ & (k & Hk0 & Hk) & Hlt & _).
      destruct (Z.eqb_spec n 0); [nia|]. done.
Qed.


End SchedulerFacts.

(** ** Evaluations of the scheduler *)

(** Three items in batches of two: when the goroutine of item 2 is started,
    items 0 and 1 have finished, in whatever order. *)
Lemma C6_batch_barrier_witness :
  0 <= 2 < Z.of_nat (length three_items)
  /\ exists s1,
       ProcessBatch three_items render_id ap_r2 first_batch = Some s1
       /\ batchStart s1 = BatchSize (config ap_r2) * (2 / BatchSize (config ap_r2))
       /\ batchEnd s1
          = Z.min (BatchSize (config ap_r2) * (2 / BatchSize (config ap_r2))
                   + BatchSize (config ap_r2))
                  (Z.of_nat (length three_items))
       /\ forall i, 0 <= i < Z.of_nat (length three_items) ->
                    i / BatchSize (config ap_r2) < 2 / BatchSize (config ap_r2) ->
                    assigned first_batch s1 i.
Proof.
  refine (C6_batch_barrier three_items render_id ap_r2 _ _
            first_batch second_batch (EvGo 2) 2 _ _ _).
  - vm_compute. split; reflexivity.
  - vm_compute. reflexivity.
  - vm_compute. reflexivity.
  - left. reflexivity.
Defined.

Lemma empty_input_stays {T : Type} (promptTemplate : T -> string) (sched : list event) :
  forall s s' : run T,
    at_ s = Summarising \/ at_ s = Crashed ->
    exec [] promptTemplate sched s = Some s' ->
    at_ s' = Summarising \/ at_ s' = Crashed.
Proof.
  induction sched as [|ev sched IH]; intros s s' Hat; simpl.
  - by intros [= <-].
  - destruct (step [] promptTemplate ev s) as [s1|] eqn:Hstep; [|done].
    apply IH. unfold step in Hstep.
    destruct Hat as [Hat|Hat]; rewrite Hat in Hstep; [|done].
    destruct ev; try done. simpl in Hstep. injection Hstep as <-. by right.
Qed.

(** C1, evaluated where it fails.  On the empty input [ProcessBatch] does not
    return a result array: no execution reaches the [return], and the one a
    processor with a valid configuration follows ends in the division by
    [len(items)] of the summary, which panics. *)
Theorem C1_empty_input_never_returns {T : Type} (promptTemplate : T -> string)
    (ap : AIProcessor) :
  (forall (sched : list event) (s : run T),
     ProcessBatch [] promptTemplate ap sched = Some s -> at_ s <> Returned)
  /\ (0 <= MaxConcurrent (config ap) -> BatchSize (config ap) <> 0 ->
      exists s : run T,
        ProcessBatch [] promptTemplate ap [EvSummary] = Some s /\ at_ s = Crashed)
  /\ exists s : run T,
       ProcessBatch [] promptTemplate ap_r2 [EvSummary] = Some s /\ at_ s = Crashed.
Proof.
  split; [|split].
  - intros sched s Hrun. unfold ProcessBatch in Hrun.
    apply empty_input_stays in Hrun.
    + destruct Hrun as [-> | ->]; done.
    + unfold ProcessBatch_start.
      destruct (MaxConcurrent (config ap) <? 0); [by right|].
      destruct (BatchSize (config ap) =? 0); [by right|]. by left.
  - intros Hconc Hsize. unfold ProcessBatch, ProcessBatch_start.
    destruct (Z.ltb_spec (MaxConcurrent (config ap)) 0); [lia|].
    destruct (Z.eqb_spec (BatchSize (config ap)) 0); [done|].
    eexists. split; reflexivity.
  - eexists. split; reflexivity.
Qed.

(** C3, evaluated where it fails.  An item that succeeds in the retry loop
    of [ProcessBatch] comes back with its token usage in the outcome, but
    nothing is recorded in the usage tracker: after the item, and after the
    whole batch call, the tracker's total is still zero.  The single-item
    path records the same call. *)
Theorem C3_batch_success_not_recorded :
  (exists r ap',
     processItemWithRetry env_ok 0 "item"%string (fun _ => "prompt"%string) ap_r2
     = Done r ap'
     /\ Success r = true
     /\ TokenUsage r = mkUsage 10 5 15
     /\ token_tracker.GetTotalSummary (tokenTracker ap')
        = token_tracker.TokenUsage_zero)
  /\ (exists s r,
        ProcessBatch ["item"%string] (fun _ => "prompt"%string) ap_r2 one_item_run
        = Some s
        /\ at_ s = Returned
        /\ results s = [r]
        /\ Success r = true
        /\ TokenUsage r = mkUsage 10 5 15
        /\ token_tracker.GetTotalSummary (tokenTracker (proc s))
           = token_tracker.TokenUsage_zero)
  /\ (exists ap',
        ProcessSingleWithWeek env_ok "prompt" "" "week" ap_r2
        = Done ("{}"%string, None) ap'
        /\ token_tracker.PromptTokens
             (token_tracker.GetTotalSummary (tokenTracker ap')) = 10
        /\ token_tracker.CompletionTokens
             (token_tracker.GetTotalSummary (tokenTracker ap')) = 5).
Proof.
  split; [|split].
  - do 2 eexists. split; [vm_compute; reflexivity|]. repeat split.
  - do 2 eexists. split; [vm_compute; reflexivity|]. repeat split.
  - eexists. split; [vm_compute; reflexivity|]. split; reflexivity.
Qed.

(** ** Further evaluations *)



(** At most 2 retries and a network that is down. *)
Lemma exhaustion_reports_one_more_witness :
  exists r ap',
    processItemWithRetry env_down 0 "item"%string render_id ap_r2 = Done r ap'
    /\ Success r = false
    /\ Retries r = MaxRetries (config ap_r2) + 1
    /\ Error r = (classify (round_trip env_down (MaxRetries (config ap_r2)))).2.
Proof.
  refine (exhaustion_reports_one_more env_down 0 "item"%string render_id ap_r2
            _ _ _ _ _ _).
  - vm_compute. split; [discriminate|reflexivity].
  - simpl. lia.
  - reflexivity.
  - reflexivity.
  - intros k. discriminate.
  - discriminate.
Defined.

(** The same item: its [Retries] field is within the bound, and reaches it. *)
Lemma retries_bound_witness :
  exists r ap',
    processItemWithRetry env_down 0 "item"%string render_id ap_r2 = Done r ap'
    /\ 0 <= Retries r <= MaxRetries (config ap_r2) + 1.
Proof.
  do 2 eexists. split; [vm_compute; reflexivity|].
  refine (proj1 (retries_bound env_down 0 "item"%string render_id ap_r2 _ _ _ _)).
  - vm_compute. split; [discriminate|reflexivity].
  - vm_compute. reflexivity.
Defined.

(** One prompt on the single-item path, answered at once. *)
Lemma ProcessSingleWithWeek_records_witness :
  exists ap' k usage,
    ProcessSingleWithWeek env_ok "prompt" "" "week" ap_r2 = Done ("{}"%string, None) ap'
    /\ 0 <= k < MaxRetries (config ap_r2)
    /\ classify (round_trip env_ok k) = ("{}"%string, usage, None)
    /\ tokenTracker ap'
       = token_tracker.RecordUsage "week" (PromptTokens usage)
           (CompletionTokens usage) (tokenTracker ap_r2).
Proof.
  eexists.
  assert (Hrun : ProcessSingleWithWeek env_ok "prompt" "" "week" ap_r2
                 = Done ("{}"%string, None) _) by (vm_compute; reflexivity).
  destruct (ProcessSingleWithWeek_records env_ok "prompt" "" "week" ap_r2 _ _
              ltac:(vm_compute; reflexivity) Hrun) as (k & usage & H).
  exists k, usage. split; [exact Hrun|exact H].
Defined.

(** Three calls of 15, 10 and 28 tokens. *)
Lemma total_exact_witness :
  token_tracker.TotalTokens
    (token_tracker.GetTotalSummary
       (token_tracker.record_all three_calls (token_tracker.NewTokenTracker "gpt-4o")))
  = 53.
Proof.
  refine (proj2 (proj2 (total_exact "gpt-4o" three_calls _ _ _))).
  - vm_compute. split; [discriminate|reflexivity].
  - vm_compute. split; [discriminate|reflexivity].
  - vm_compute. split; [discriminate|reflexivity].
Defined.

(** * Further properties of the package *)

(** ** Strings *)
Section StringFacts.

Lemma append_cons (x : Ascii.ascii) (a c : string) :
  (String x a ++ c = String x (a ++ c))%string.
Proof. reflexivity. Qed.

Lemma append_empty_l (a : string) : ("" ++ a = a)%string.
Proof. reflexivity. Qed.

Lemma length_append (a c : string) :
  String.length (a ++ c) = (String.length a + String.length c)%nat.
Proof.
  induction a as [|x a IH]; [done|]. rewrite append_cons. simpl. by rewrite IH.
Qed.

Lemma append_assoc (a c d : string) : ((a ++ c) ++ d = a ++ (c ++ d))%string.
Proof.
  induction a as [|x a IH]; [done|]. rewrite !append_cons. by rewrite IH.
Qed.

Lemma append_empty_r (a : string) : (a ++ "" = a)%string.
Proof.
  induction a as [|x a IH]; [done|]. rewrite append_cons. by rewrite IH.
Qed.

Lemma length_copies (s : string) (k : nat) :
  String.length (formatter.copies s k) = (k * String.length s)%nat.
Proof.
  induction k as [|k IH]; simpl; [done|]. by rewrite length_append, IH.
Qed.

Lemma copies_add (s : string) (j k : nat) :
  formatter.copies s (j + k) = (formatter.copies s j ++ formatter.copies s k)%string.
Proof.
  induction j as [|j IH]; simpl; [done|]. by rewrite IH, append_assoc.
Qed.

Lemma repeat_loop_copies (s : string) (k : nat) (result : string) :
  token_tracker.repeat_loop s k result = (result ++ formatter.copies s k)%string.
Proof.
  revert result. induction k as [|k IH]; intros result; simpl.
  - by rewrite append_empty_r.
  - by rewrite IH, append_assoc.
Qed.

Lemma repeatString_copies (s : string) (n : Z) :
  token_tracker.repeatString s n = formatter.copies s (Z.to_nat n).
Proof. unfold token_tracker.repeatString. by rewrite repeat_loop_copies. Qed.

(** [repeatString(s, n)] is [n] copies of [s], of total length
    [n * len(s)], and the empty string for [n <= 0]; repeating [n + m] times
    is repeating [n] times and then [m] times; and it agrees with
    [strings.Repeat] wherever that does not panic for a negative count,
    where [repeatString] gives the empty string. *)
Theorem repeatString_spec (s : string) (n m : Z) :
  String.length (token_tracker.repeatString s n)
  = (Z.to_nat n * String.length s)%nat
  /\ (n <= 0 -> token_tracker.repeatString s n = ""%string)
  /\ (0 <= n -> 0 <= m ->
      token_tracker.repeatString s (n + m)
      = (token_tracker.repeatString s n ++ token_tracker.repeatString s m)%string)
  /\ (0 <= n -> formatter.len s * n < 2^63 ->
      formatter.Repeat s n = Some (token_tracker.repeatString s n))
  /\ (n < 0 -> formatter.Repeat s n = None).
Proof.
  rewrite !repeatString_copies. split; [apply length_copies|].
  split; [intros Hn; by replace (Z.to_nat n) with 0%nat by lia|].
  split.
  - intros Hn Hm.
    replace (Z.to_nat (n + m)) with (Z.to_nat n + Z.to_nat m)%nat by lia.
    apply copies_add.
  - unfold formatter.Repeat. split.
    + intros Hn Hfit. destruct (Z.ltb_spec n 0); [lia|].
      by destruct (Z.leb_spec (2^63) (formatter.len s * n)); [lia|].
    + intros Hn. by destruct (Z.ltb_spec n 0); [|lia].
Qed.

End StringFacts.

(** ** The rate limiter as a budget *)
Section LimiterBudget.

Lemma limiter_step_budget (ev : limiter_event) (rl rl' : RateLimiter) :
  limiter_step ev rl = Some rl' ->
  (tokens rl' + waits [ev] <= tokens rl + ticks [ev])%nat
  /\ capacity rl' = capacity rl.
Proof.
  destruct rl as [t c r]. destruct ev; simpl; unfold refill, send, Wait; simpl.
  - destruct (t <? c)%nat; intros [= <-]; simpl; lia.
  - destruct t; [done|]. intros [= <-]; simpl; lia.
Qed.

Lemma limiter_run_budget (evs : list limiter_event) :
  forall rl rl',
    limiter_run evs rl = Some rl' ->
    (tokens rl' + waits evs <= tokens rl + ticks evs)%nat
    /\ capacity rl' = capacity rl.
Proof.
  induction evs as [|ev evs IH]; intros rl rl'; simpl.
  - intros [= <-]. lia.
  - destruct (limiter_step ev rl) as [rl1|] eqn:E; [|done]. intros Hrun.
    apply limiter_step_budget in E. apply IH in Hrun.
    destruct E as [E Ec], Hrun as [Hrun Hc].
    split; [|congruence]. destruct ev; simpl in *; lia.
Qed.

(** Whatever the interleaving of refill ticks and callers, the [Wait]s that
    have completed on a limiter made by [NewRateLimiter] number at most the
    requests-per-minute it was made with plus the ticks that have occurred:
    tokens are never created by anything but the initial fill and a tick. *)
Theorem limiter_budget (requestsPerMinute : Z) (rl rl' : RateLimiter)
    (evs : list limiter_event)
    (Hnew : NewRateLimiter requestsPerMinute = Some rl)
    (Hrun : limiter_run evs rl = Some rl') :
  Z.of_nat (waits evs) + Z.of_nat (tokens rl')
  <= requestsPerMinute + Z.of_nat (ticks evs).
Proof.
  destruct (NewRateLimiter_Some _ _ Hnew) as (Hpos & _ & ->).
  apply limiter_run_budget in Hrun. simpl in Hrun. lia.
Qed.

Lemma burst_drains (k : nat) (rl : RateLimiter) :
  (k <= tokens rl)%nat ->
  limiter_run (replicate k Acquire) rl
  = Some (mkRateLimiter (tokens rl - k) (capacity rl) (refillRate rl)).
Proof.
  revert rl. induction k as [|k IH]; intros [t c r] Hk; simpl in *.
  - by rewrite Nat.sub_0_r.
  - unfold Wait. simpl. destruct t as [|t]; [lia|].
    rewrite IH by (simpl; lia). done.
Qed.

(** A new limiter lets exactly requests-per-minute [Wait]s through at once:
    that many complete back to back and leave the pool empty, one more does
    not complete, and it does after a single tick. *)
Theorem limiter_burst (requestsPerMinute : Z) (rl : RateLimiter)
    (Hnew : NewRateLimiter requestsPerMinute = Some rl) :
  let burst := replicate (Z.to_nat requestsPerMinute) Acquire in
  let drained := mkRateLimiter 0 (capacity rl) (refillRate rl) in
  limiter_run burst rl = Some drained
  /\ limiter_run (burst ++ [Acquire]) rl = None
  /\ limiter_run (burst ++ [Tick; Acquire]) rl = Some drained.
Proof.
  destruct (NewRateLimiter_Some _ _ Hnew) as (Hpos & _ & ->). simpl.
  set (k := Z.to_nat requestsPerMinute).
  assert (Hrun : forall rest,
            limiter_run (replicate k Acquire ++ rest)
                        (mkRateLimiter k k (Z.quot minute requestsPerMinute))
            = limiter_run rest (mkRateLimiter 0 k (Z.quot minute requestsPerMinute))).
  { intros rest.
    pose proof (burst_drains k (mkRateLimiter k k (Z.quot minute requestsPerMinute))
                  ltac:(simpl; lia)) as Hb.
    simpl in Hb. rewrite Nat.sub_diag in Hb.
    generalize dependent (mkRateLimiter k k (Z.quot minute requestsPerMinute)).
    induction (replicate k Acquire) as [|ev evs IH]; intros rl0; simpl.
    - by intros [= ->].
    - destruct (limiter_step ev rl0); [apply IH|done]. }
  split; [|split].
  - specialize (Hrun []). by rewrite app_nil_r in Hrun.
  - by rewrite Hrun.
  - rewrite Hrun. simpl. unfold refill, send, Wait. simpl.
    destruct (Nat.ltb_spec 0 k); [done|lia].
Qed.

End LimiterBudget.

(** ** The retry delay at its limits *)
Section DelayLimits.

Lemma shl1_out_of_range (attempt : Z) :
  in_int attempt -> attempt < 0 \/ 64 <= attempt -> shl1 attempt = 0.
Proof.
  unfold in_int, shl1, to_uint. intros Hint Hout.
  assert (64 <= attempt mod 2^64).
  { destruct Hout as [Hneg|Hbig].
    - replace (attempt mod 2^64) with (attempt + 2^64); [lia|].
      apply (Z.mod_unique attempt (2^64) (-1)); lia.
    - rewrite Z.mod_small; lia. }
  by destruct (Z.leb_spec 64 (attempt mod 2^64)); [|lia].
Qed.

(** With exponential backoff enabled the delay never exceeds the maximum
    delay, for every attempt number and every configuration, also where the
    product wraps; and for an attempt number from 64 on, or a negative one,
    the shift is 0 and the delay is [min 0 maxDelay]: no wait at all under a
    positive maximum. *)
Theorem delay_capped (cfg : Config) (attempt : Z)
    (Hbackoff : ExponentialBackoff cfg = true) :
  calculateRetryDelay cfg attempt <= MaxRetryDelay cfg
  /\ (in_int attempt -> attempt < 0 \/ 64 <= attempt ->
      calculateRetryDelay cfg attempt = Z.min 0 (MaxRetryDelay cfg)).
Proof.
  unfold calculateRetryDelay. rewrite Hbackoff. simpl. split.
  - destruct (Z.ltb_spec (MaxRetryDelay cfg)
                (mul (InitialRetryDelay cfg) (shl1 attempt))); lia.
  - intros Hint Hout. rewrite shl1_out_of_range by done.
    unfold mul. rewrite Z.mul_0_r.
    change (wrap64 0) with 0.
    destruct (Z.ltb_spec (MaxRetryDelay cfg) 0); lia.
Qed.

End DelayLimits.

(** ** The constructor *)
Section ConstructorFacts.

Lemma with_defaults_idempotent (c : Config) :
  with_defaults (with_defaults c) = with_defaults c.
Proof.
  unfold with_defaults. simpl.
  repeat match goal with
         | |- context [?x =? 0] =>
             is_var x || (let h := fresh in destruct (Z.eqb_spec x 0) as [h|h];
                          simpl; try (vm_compute in h; discriminate))
         end.
  all: try reflexivity.
  all: repeat match goal with
         | |- context [(if ?b then _ else _)] => destruct b eqn:?; simpl
         end; try reflexivity; try lia.
Qed.

Lemma NewRateLimiter_iff (rpm : Z) :
  (exists rl, NewRateLimiter rpm = Some rl) <-> 0 < rpm <= minute.
Proof.
  split.
  - intros [rl H]. apply NewRateLimiter_Some in H. destruct H as (Hpos & Hrate & _).
    split; [done|]. destruct (Z.le_gt_cases rpm minute); [done|].
    rewrite Z.quot_small in Hrate; [lia|]. split; [by vm_compute|done].
  - intros [Hpos Hle]. unfold NewRateLimiter.
    destruct (Z.ltb_spec rpm 0); [lia|]. destruct (Z.eqb_spec rpm 0); [lia|].
    rewrite fill_spec by (simpl; lia). simpl.
    pose proof (Z.quot_str_pos minute rpm ltac:(lia)).
    destruct (Z.leb_spec (Z.quot minute rpm) 0); [lia|]. eauto.
Qed.

(** [NewAIProcessor] returns a processor exactly when the configured rate
    limit is between 0 and 60 000 000 000 requests per minute (it panics
    otherwise).  The processor then carries the configuration with every zero
    setting replaced by its default and every other value kept, so none of
    the seven settings is zero (a [MaxRetries] of 0 cannot be had) and
    applying the defaults again changes nothing; its limiter is the full one
    [NewRateLimiter] makes for the resulting rate; and its tracker has
    recorded nothing. *)
Theorem NewAIProcessor_spec (c : Config) :
  ((exists ap, NewAIProcessor c = Some ap) <-> 0 <= RateLimitPerMin c <= minute)
  /\ forall ap, NewAIProcessor c = Some ap ->
       config ap = with_defaults c
       /\ with_defaults (config ap) = config ap
       /\ (MaxRetries (config ap) <> 0 /\ InitialRetryDelay (config ap) <> 0
           /\ MaxRetryDelay (config ap) <> 0 /\ Timeout (config ap) <> 0
           /\ BatchSize (config ap) <> 0 /\ MaxConcurrent (config ap) <> 0
           /\ RateLimitPerMin (config ap) <> 0)
       /\ (MaxRetries c <> 0 -> MaxRetries (config ap) = MaxRetries c)
       /\ (BatchSize c <> 0 -> BatchSize (config ap) = BatchSize c)
       /\ (MaxConcurrent c <> 0 -> MaxConcurrent (config ap) = MaxConcurrent c)
       /\ NewRateLimiter (RateLimitPerMin (config ap)) = Some (rateLimiter ap)
       /\ tokens (rateLimiter ap) = capacity (rateLimiter ap)
       /\ Z.of_nat (capacity (rateLimiter ap)) = RateLimitPerMin (config ap)
       /\ journal ap = []
       /\ token_tracker.GetTotalSummary (tokenTracker ap)
          = token_tracker.TokenUsage_zero
       /\ forall label, token_tracker.GetWeekSummary label (tokenTracker ap)
                        = token_tracker.TokenUsage_zero.
Proof.
  assert (Hrate : RateLimitPerMin (with_defaults c)
                  = if RateLimitPerMin c =? 0 then 60 else RateLimitPerMin c)
    by reflexivity.
  split.
  - unfold NewAIProcessor. split.
    + intros [ap H].
      destruct (NewRateLimiter (RateLimitPerMin (with_defaults c))) as [rl|] eqn:E;
        [|done].
      assert (Hex : exists rl, NewRateLimiter (RateLimitPerMin (with_defaults c)) = Some rl)
        by eauto.
      apply NewRateLimiter_iff in Hex. rewrite Hrate in Hex.
      destruct (Z.eqb_spec (RateLimitPerMin c) 0); [|lia].
      assert (0 < minute) by (by vm_compute). lia.
    + intros Hrange.
      assert (Hex : exists rl, NewRateLimiter (RateLimitPerMin (with_defaults c)) = Some rl).
      { apply NewRateLimiter_iff. rewrite Hrate.
        destruct (Z.eqb_spec (RateLimitPerMin c) 0); [by vm_compute|lia]. }
      destruct Hex as [rl ->]. eauto.
  - intros ap. unfold NewAIProcessor.
    destruct (NewRateLimiter (RateLimitPerMin (with_defaults c))) as [rl|] eqn:E;
      [|done].
    intros [= <-]. simpl.
    split; [done|]. split; [apply with_defaults_idempotent|].
    split.
    { repeat split.
      all: match goal with
           | |- (if ?x =? 0 then _ else _) <> 0 =>
               destruct (Z.eqb_spec x 0); [by vm_compute|done]
           end. }
    split; [intros H; by destruct (Z.eqb_spec (MaxRetries c) 0)|].
    split; [intros H; by destruct (Z.eqb_spec (BatchSize c) 0)|].
    split; [intros H; by destruct (Z.eqb_spec (MaxConcurrent c) 0)|].
    split; [exact E|].
    apply NewRateLimiter_Some in E. destruct E as (Hpos & _ & ->). simpl.
    split; [done|]. split; [rewrite Hrate in *; lia|]. done.
Qed.

End ConstructorFacts.

(** ** The single-item paths *)
Section SinglePathFacts.

Implicit Types (env : ItemEnv) (ap : AIProcessor).

Lemma acquires_app (l1 l2 : list effect) :
  acquires (l1 ++ l2) = (acquires l1 + acquires l2)%nat.
Proof. induction l1 as [|[] l1 IH]; simpl; lia. Qed.

Lemma renders_app (l1 l2 : list effect) :
  renders (l1 ++ l2) = (renders l1 + renders l2)%nat.
Proof. induction l1 as [|[] l1 IH]; simpl; lia. Qed.

Lemma calls_app (l1 l2 : list effect) :
  calls (l1 ++ l2) = (calls l1 + calls l2)%nat.
Proof. induction l1 as [|[] l1 IH]; simpl; lia. Qed.

Lemma sleeps_app (l1 l2 : list effect) :
  sleeps (l1 ++ l2) = (sleeps l1 + sleeps l2)%nat.
Proof. induction l1 as [|[] l1 IH]; simpl; lia. Qed.

(** One iteration of the loop of [ProcessSingleWithWeek], spelled out. *)
Lemma single_loop_cons env prompt systemMessage weekLabel attempt rest response err ap :
  single_loop env prompt systemMessage weekLabel (attempt :: rest) response err ap
  = let ap1 := with_limiter ap (rateLimiter ap)
                 (single_effects ap attempt systemMessage prompt) in
    match classify (round_trip env attempt) with
    | (response', usage, None) =>
        Done (response', None)
             (mkAIProcessor (config ap) (rateLimiter ap)
                (token_tracker.RecordUsage weekLabel (PromptTokens usage)
                   (CompletionTokens usage) (tokenTracker ap))
                (journal ap1))
    | (response', _, Some e) =>
        single_loop env prompt systemMessage weekLabel rest response' (Some e) ap1
    end.
Proof.
  simpl. unfold bind, single_effects, with_limiter, full_prompt, system_of.
  destruct (0 <? attempt); simpl;
    unfold callOpenAI, bind, log, ret; simpl;
    destruct (classify (round_trip env attempt)) as [[response' usage] [e|]];
    simpl; rewrite <- ?app_assoc; reflexivity.
Qed.

Lemma deprecated_loop_cons env prompt systemMessage attempt rest response err ap :
  deprecated_loop env prompt systemMessage (attempt :: rest) response err ap
  = let ap1 := with_limiter ap (rateLimiter ap)
                 (single_effects ap attempt systemMessage prompt) in
    match classify (round_trip env attempt) with
    | (response', _, None) => Done (response', None) ap1
    | (response', _, Some e) =>
        deprecated_loop env prompt systemMessage rest response' (Some e) ap1
    end.
Proof.
  simpl. unfold bind, single_effects, with_limiter, full_prompt, system_of.
  destruct (0 <? attempt); simpl;
    unfold callOpenAI, bind, log, ret; simpl;
    destruct (classify (round_trip env attempt)) as [[response' usage] [e|]];
    simpl; rewrite <- ?app_assoc; reflexivity.
Qed.

Lemma deprecated_loop_drops env prompt systemMessage weekLabel attempts :
  forall response err ap,
    deprecated_loop env prompt systemMessage attempts response err ap
    = with_tracker (tokenTracker ap)
        (single_loop env prompt systemMessage weekLabel attempts response err ap).
Proof.
  induction attempts as [|attempt rest IH]; intros response err ap.
  - simpl. unfold ret. simpl. by destruct ap.
  - rewrite single_loop_cons, deprecated_loop_cons. cbv zeta.
    destruct (classify (round_trip env attempt)) as [[response' usage] [e|]].
    + by rewrite IH.
    + reflexivity.
Qed.

(** [ProcessSingleDeprecated] does what [ProcessSingleWithWeek] does under
    any week label, with the same result, the same effect on the limiter and
    the same calls, except that it leaves the usage tracker as it was. *)
Theorem ProcessSingleDeprecated_drops_usage env prompt systemMessage weekLabel ap :
  ProcessSingleDeprecated env prompt systemMessage ap
  = with_tracker (tokenTracker ap)
      (ProcessSingleWithWeek env prompt systemMessage weekLabel ap).
Proof.
  unfold ProcessSingleDeprecated, ProcessSingleWithWeek, bind, rateLimiterWait.
  destruct (await (rateLimiter ap)) as [rl|]; [|done].
  unfold log. simpl. rewrite (deprecated_loop_drops _ _ _ weekLabel). simpl.
  destruct (single_loop env prompt systemMessage weekLabel _ "" None _)
    as [[response [e|]] ap1| |]; reflexivity.
Qed.

(** What the loop of the single-item path does to the processor: it takes
    no token, makes at most one call per attempt, and waits before every
    call but the one of attempt 0. *)
Lemma single_loop_effects env prompt systemMessage weekLabel (n : nat) :
  forall lo response err ap,
    0 <= lo ->
    exists res ap' fxs,
      single_loop env prompt systemMessage weekLabel (attempts_from lo n)
                  response err ap = Done res ap'
      /\ journal ap' = journal ap ++ fxs
      /\ rateLimiter ap' = rateLimiter ap
      /\ config ap' = config ap
      /\ acquires fxs = 0%nat /\ renders fxs = 0%nat
      /\ (calls fxs <= n)%nat
      /\ (0 < lo -> sleeps fxs = calls fxs)
      /\ (lo = 0 -> sleeps fxs = (calls fxs - 1)%nat)
      /\ (n = 0%nat -> res = (response, err)).
Proof.
  induction n as [|n IH]; intros lo response err ap Hlo.
  - exists (response, err), ap, []. simpl. unfold ret. rewrite app_nil_r.
    repeat split; try done.
  - rewrite attempts_from_S, single_loop_cons. cbv zeta.
    set (fx1 := single_effects ap lo systemMessage prompt).
    assert (Hfx1 : acquires fx1 = 0%nat /\ renders fx1 = 0%nat /\ calls fx1 = 1%nat
                   /\ (0 < lo -> sleeps fx1 = 1%nat)
                   /\ (lo = 0 -> sleeps fx1 = 0%nat)).
    { unfold fx1, single_effects.
      destruct (Z.ltb_spec 0 lo); simpl; repeat split; try done; lia. }
    destruct Hfx1 as (Ha1 & Hr1 & Hc1 & Hs1 & Hs0).
    destruct (classify (round_trip env lo)) as [[response' usage] [e|]].
    + destruct (IH (lo + 1) response' (Some e)
                  (with_limiter ap (rateLimiter ap) fx1) ltac:(lia))
        as (res & ap' & fxs & Hrun & Hj & Hrl & Hcfg & Ha & Hr & Hc & Hs & _).
      exists res, ap', (fx1 ++ fxs). rewrite Hrun. simpl in Hj, Hrl, Hcfg.
      rewrite acquires_app, renders_app, calls_app, sleeps_app, app_assoc.
      specialize (Hs ltac:(lia)).
      repeat split; try done; try lia;
        intros Hx; try specialize (Hs1 Hx); try specialize (Hs0 Hx); lia.
    + eexists. eexists. exists fx1. split; [reflexivity|]. simpl.
      repeat split; try done; try lia;
        intros Hx; try specialize (Hs1 Hx); try specialize (Hs0 Hx); lia.
Qed.

(** [ProcessSingleWithWeek] always returns; it takes exactly one
    rate-limiter token, before anything else and whatever the number of
    attempts; it makes at most [MaxRetries] calls, with a wait before each
    call but the first; and with [MaxRetries <= 0] it makes no call and
    returns the empty response with no error. *)
Theorem ProcessSingleWithWeek_one_token env prompt systemMessage weekLabel ap
    (Hcap : (0 < capacity (rateLimiter ap))%nat) :
  exists res ap' fxs,
    ProcessSingleWithWeek env prompt systemMessage weekLabel ap = Done res ap'
    /\ journal ap' = journal ap ++ FxAcquire :: fxs
    /\ await (rateLimiter ap) = Some (rateLimiter ap')
    /\ acquires fxs = 0%nat /\ renders fxs = 0%nat
    /\ Z.of_nat (calls fxs) <= Z.max 0 (MaxRetries (config ap))
    /\ sleeps fxs = (calls fxs - 1)%nat
    /\ (MaxRetries (config ap) <= 0 -> res = (""%string, None) /\ fxs = []).
Proof.
  unfold ProcessSingleWithWeek, bind, rateLimiterWait.
  destruct (await_Some _ Hcap) as [rl Hrl]. rewrite Hrl. unfold log. simpl.
  set (ap1 := mkAIProcessor (config ap) rl (tokenTracker ap) (journal ap ++ [FxAcquire])).
  destruct (single_loop_effects env prompt systemMessage weekLabel
              (Z.to_nat (MaxRetries (config ap))) 0 "" None ap1 ltac:(lia))
    as (res & ap' & fxs & Hrun & Hj & Hrl' & Hcfg & Ha & Hr & Hc & _ & Hs & Hnil).
  rewrite Hrun. simpl in Hj, Hrl', Hcfg.
  assert (Hjournal : journal ap' = journal ap ++ FxAcquire :: fxs).
  { rewrite Hj, <- app_assoc. done. }
  specialize (Hs eq_refl).
  assert (Hzero : MaxRetries (config ap) <= 0 ->
                  res = (""%string, None) /\ fxs = []).
  { intros Hle. split; [apply Hnil; lia|].
    assert (Z.to_nat (MaxRetries (config ap)) = 0%nat) as Hz by lia.
    rewrite Hz in Hrun. simpl in Hrun. unfold ret in Hrun.
    injection Hrun as _ <-. simpl in Hj.
    apply (f_equal length) in Hj. rewrite length_app in Hj.
    destruct fxs; [done|]. rewrite !length_app in Hj. simpl in Hj. lia. }
  destruct res as [response [e|]]; unfold ret.
  - eexists. exists ap', fxs. split; [reflexivity|].
    do 6 (split; [done || lia || congruence|]).
    intros Hle. destruct (Hzero Hle) as [? _]. congruence.
  - eexists. exists ap', fxs. split; [reflexivity|].
    do 6 (split; [done || lia || congruence|]).
    done.
Qed.

End SinglePathFacts.

(** ** What one item's result says about its attempts *)
Section ItemFacts.

Context {T : Type}.
Implicit Types (env : ItemEnv) (item : T) (promptTemplate : T -> string).
Implicit Types (ap : AIProcessor) (r : ProcessResult T).

(** The loop of [processItemWithRetry] from attempt [lo] on, when the retry
    counter equals the attempt number as it does from the start. *)
Lemma retry_loop_account env index item promptTemplate :
  forall (n : nat) lo lastError ap r ap',
    0 <= lo -> lo + Z.of_nat n < 2^63 ->
    (promptTemplate item = ""%string -> lo = 0) ->
    retry_loop env index item promptTemplate (attempts_from lo n)
               lastError lo ap = Done r ap' ->
    exists fxs,
      journal ap' = journal ap ++ fxs
      /\ acquires fxs = renders fxs
      /\ (calls fxs <= acquires fxs <= calls fxs + 1)%nat
      /\ (acquires fxs <= n)%nat
      /\ (sleeps fxs <= calls fxs)%nat
      /\ Z.of_nat (calls fxs) = Retries r - lo + (if Success r then 1 else 0)
      /\ (Success r = true <-> Error r = None)
      /\ (Success r = false -> Output r = ""%string /\ TokenUsage r = Usage_zero)
      /\ (Success r = true ->
          lo <= Retries r
          /\ classify (round_trip env (Retries r)) = (Output r, TokenUsage r, None)
          /\ Duration r = since env (Retries r)
          /\ forall j, lo <= j < Retries r -> (classify (round_trip env j)).2 <> None).
Proof.
  induction n as [|n IH]; intros lo lastError ap r ap' Hlo Hfit Hempty.
  - simpl. destruct lastError as [e|]; [|done]. unfold ret. intros [= <- <-].
    exists []. rewrite app_nil_r. simpl. repeat split; try done; lia.
  - rewrite attempts_from_S, retry_loop_cons.
    destruct (ctx_before env lo).
    { intros [= <- <-]. exists []. rewrite app_nil_r. simpl.
      repeat split; try done; lia. }
    destruct (await (rateLimiter ap)) as [rl|]; [|done]. cbv zeta.
    destruct (String.eqb_spec (promptTemplate item) "") as [He|Hne].
    { intros [= <- <-]. exists [FxAcquire; FxRender]. simpl.
      specialize (Hempty He). repeat split; try done; lia. }
    destruct (classify (round_trip env lo)) as [[output usage] [e|]] eqn:Hcl.
    2:{ intros [= <- <-].
        exists [FxAcquire; FxRender; FxCall (system_of ap) (promptTemplate item)].
        simpl. repeat split; try done; try lia. }
    assert (Hadd : add lo 1 = lo + 1).
    { apply wrap64_in_int. unfold in_int. lia. }
    rewrite Hadd.
    assert (Hhere : forall j, lo <= j < lo + 1 ->
                      (classify (round_trip env j)).2 <> None).
    { intros j Hj. replace j with lo by lia. by rewrite Hcl. }
    destruct (lo <? MaxRetries (config ap)).
    + destruct (ctx_in_wait env lo).
      { intros [= <- <-].
        exists [FxAcquire; FxRender; FxCall (system_of ap) (promptTemplate item)].
        simpl. repeat split; try done; lia. }
      intros Hrun. apply IH in Hrun; [|lia|lia|done].
      destruct Hrun as (fxs & Hj & Har & Hca & Han & Hsl & Hc & Hse & Hf & Hs).
      simpl in Hj.
      exists ([FxAcquire; FxRender; FxCall (system_of ap) (promptTemplate item);
               FxSleep (calculateRetryDelay (config ap) lo)] ++ fxs).
      rewrite acquires_app, renders_app, calls_app, sleeps_app, app_assoc. simpl.
      do 5 (split; [done || lia|]). split; [lia|]. do 2 (split; [done|]).
      intros Hok. destruct (Hs Hok) as (H1 & H2 & H3 & H4).
      do 3 (split; [done || lia|]).
      intros j Hjr. destruct (Z.eq_dec j lo) as [->|]; [apply Hhere|apply H4]; lia.
    + intros Hrun. apply IH in Hrun; [|lia|lia|done].
      destruct Hrun as (fxs & Hj & Har & Hca & Han & Hsl & Hc & Hse & Hf & Hs).
      simpl in Hj.
      exists ([FxAcquire; FxRender; FxCall (system_of ap) (promptTemplate item)]
              ++ fxs).
      rewrite acquires_app, renders_app, calls_app, sleeps_app, app_assoc. simpl.
      do 5 (split; [done || lia|]). split; [lia|]. do 2 (split; [done|]).
      intros Hok. destruct (Hs Hok) as (H1 & H2 & H3 & H4).
      do 3 (split; [done || lia|]).
      intros j Hjr. destruct (Z.eq_dec j lo) as [->|]; [apply Hhere|apply H4]; lia.
Qed.

(** Token and call accounting of one item: every token taken is followed by
    one rendering of the prompt; every call has its own token, and at most
    one token is taken without a call; at most [MaxRetries + 1] tokens are
    taken; a wait follows a failed call only; and the number of calls is
    the reported number of retries, plus one when the item succeeded. *)
Theorem processItemWithRetry_accounting env index item promptTemplate ap r ap'
    (Hretries : 0 <= MaxRetries (config ap) < 2^63 - 1)
    (Hrun : processItemWithRetry env index item promptTemplate ap = Done r ap') :
  exists fxs,
    journal ap' = journal ap ++ fxs
    /\ acquires fxs = renders fxs
    /\ (calls fxs <= acquires fxs <= calls fxs + 1)%nat
    /\ Z.of_nat (acquires fxs) <= MaxRetries (config ap) + 1
    /\ (sleeps fxs <= calls fxs)%nat
    /\ Z.of_nat (calls fxs) = Retries r + (if Success r then 1 else 0).
Proof.
  unfold processItemWithRetry in Hrun.
  apply retry_loop_account in Hrun; [|lia|lia|done].
  destruct Hrun as (fxs & Hj & Har & Hca & Han & Hsl & Hc & _).
  exists fxs. repeat split; try done; lia.
Qed.

(** The result of one item is well formed, and a success is the first
    attempt that succeeded: [Success] holds exactly when [Error] is nil; a
    failure carries no output and no usage; a success after [Retries]
    retries carries the output and the usage of attempt number [Retries],
    and every earlier attempt failed. *)
Theorem processItemWithRetry_result env index item promptTemplate ap r ap'
    (Hretries : 0 <= MaxRetries (config ap) < 2^63 - 1)
    (Hrun : processItemWithRetry env index item promptTemplate ap = Done r ap') :
  (Success r = true <-> Error r = None)
  /\ (Success r = false -> Output r = ""%string /\ TokenUsage r = Usage_zero)
  /\ (Success r = true ->
      0 <= Retries r <= MaxRetries (config ap)
      /\ classify (round_trip env (Retries r)) = (Output r, TokenUsage r, None)
      /\ Duration r = since env (Retries r)
      /\ forall j, 0 <= j < Retries r -> (classify (round_trip env j)).2 <> None).
Proof.
  pose proof Hrun as Hbound.
  unfold processItemWithRetry in Hrun, Hbound.
  apply retry_loop_account in Hrun; [|lia|lia|done].
  apply retry_loop_bound in Hbound; [|lia|lia].
  destruct Hrun as (fxs & _ & _ & _ & _ & _ & _ & Hse & Hf & Hs).
  do 2 (split; [done|]). intros Hok.
  destruct (Hs Hok) as (H1 & H2 & H3 & H4). destruct Hbound as [_ Hlt].
  specialize (Hlt Hok). repeat split; try done; lia.
Qed.

End ItemFacts.
